(** * MASR trainer: training / checkpoint lifecycle of [masr/trainer.py]

    A shallow embedding of [MASRTrainer] (methods [train], [__test],
    [evaluate], [save_model] and [decoder_result], the vocabulary file of
    [create_data] and the model choice of [export]) and the properties of
    its checkpoint store, resume logic, evaluator, decoder fallback and
    interrupt handler.

    Modelling conventions.
    - Python floats are idealised as rationals ([Q]); [1.0] is [1] and
      [1e3] is [1000].  The text produced by ['%f'] keeps six decimals,
      see [fmt_f].
    - The checkpoint tree is a finite map from directory paths to the three
      files the trainer reads and writes in a directory.
    - The trainer's mutable state ([self.decoder],
      [self.beam_search_decoder]), the local variables of [train] that the
      interrupt handler reads, the logger output and the disk live in a
      [world]; statements are computations in a state-and-exception monad
      in which an exception keeps the state reached so far.
    - The network, the optimiser, the CTC loss, the decoders and the string
      metrics are collaborators outside this file ([Collaborators]).
    - An external interrupt is delivered at one of the statement boundaries
      of the training loop marked by [tick]. *)

From Stdlib Require Import ZArith QArith Qround Qabs String List Lia Lqa.
From stdpp Require Import base option list strings gmap sorting.

(** ** Exceptions and results *)

Inductive exn :=
  | AssertionError (msg : string)
  | NameError (name : string)
  | KeyError (key : string)
  | TypeError
  | FileNotFoundError
  | ZeroDivisionError
  | IndexError
  | AttributeError
  | RuntimeError
  | KeyboardInterrupt.

Inductive result (A : Type) :=
  | Ok (a : A)
  | Raise (e : exn).
Arguments Ok {A} a.
Arguments Raise {A} e.

Definition is_keyboard_interrupt (e : exn) : bool :=
  match e with KeyboardInterrupt => true | _ => false end.

(** ** Numbers *)

(** [sum(xs)]: Python adds from the left, starting at 0. *)
Definition py_sum (xs : list Q) : Q := fold_left Qplus xs 0%Q.

(** [float(sum(xs) / len(xs))]; the division raises on an empty list. *)
Definition mean (xs : list Q) : result Q :=
  match xs with
  | [] => Raise ZeroDivisionError
  | _ :: _ => Ok (py_sum xs / inject_Z (Z.of_nat (length xs)))%Q
  end.

(** The number read back from the text ['%f' % x]: [x] rounded to six
    decimals, a tie going to the even last digit. *)
Definition fmt_f (x : Q) : Q :=
  let y := (x * 1000000)%Q in
  let n := Qfloor y in
  let up :=
    match (y - inject_Z n ?= 1 # 2)%Q with
    | Lt => false
    | Eq => Z.odd n
    | Gt => true
    end in
  Qmake (if up then n + 1 else n) 1000000.

(** ** The [model.state] record *)

Inductive jval :=
  | JInt (n : Z)
  | JFloat (x : Q).

Definition jnum (v : jval) : Q :=
  match v with JInt n => inject_Z n | JFloat x => x end.

(** A parsed JSON object, in the order of the text.  [json.load] keeps the
    last binding of a repeated key. *)
Definition json_obj := list (string * jval).

Fixpoint json_get (k : string) (o : json_obj) : option jval :=
  match o with
  | [] => None
  | (k', v) :: o' =>
      match json_get k o' with
      | Some v' => Some v'
      | None => if String.eqb k k' then Some v else None
      end
  end.

(** ['{"last_epoch": %d, "test_%s": %f, "test_loss": %f}'
     % (epoch, error_type, error_rate, test_loss)] *)
Definition state_record (epoch : Z) (error_type : string)
    (error_rate test_loss : Q) : json_obj :=
  [ ("last_epoch", JInt epoch);
    ("test_" +:+ error_type, JFloat (fmt_f error_rate));
    ("test_loss", JFloat (fmt_f test_loss)) ].

(** ** Paths of checkpoint directories *)

Inductive leaf :=
  | Epoch (n : Z)      (* 'epoch_{}'.format(n) *)
  | LastModel          (* 'last_model' *)
  | BestModel.         (* 'best_model' *)

Inductive path :=
  | Ckpt (save_model_path use_model : string) (l : leaf)
      (* os.path.join(save_model_path, use_model, l) *)
  | External (p : string).

#[global] Instance leaf_eq_dec : EqDecision leaf.
Proof. solve_decision. Defined.

#[global] Instance path_eq_dec : EqDecision path.
Proof. solve_decision. Defined.

#[global] Instance leaf_countable : Countable leaf.
Proof.
  refine (inj_countable'
    (λ l, match l with
          | Epoch n => inl n
          | LastModel => inr true
          | BestModel => inr false
          end)
    (λ x, match x with
          | inl n => Epoch n
          | inr true => LastModel
          | inr false => BestModel
          end) _).
  by intros [].
Defined.

#[global] Instance path_countable : Countable path.
Proof.
  refine (inj_countable'
    (λ p, match p with
          | Ckpt r v l => inl (r, v, l)
          | External s => inr s
          end)
    (λ x, match x with
          | inl (r, v, l) => Ckpt r v l
          | inr s => External s
          end) _).
  by intros [].
Defined.

(** ** Collaborators

    Code outside [trainer.py] that the trainer calls: the network with its
    optimiser and loss (torch), the decoders ([masr.decoders]), the string
    metrics ([masr.utils.metrics]) and [labels_to_string]. *)

Class Collaborators := {
  tensor : Type;
  opt_state : Type;
  batch : Type;          (* (inputs, labels, input_lens, label_lens) *)
  frame : Type;          (* one time step of the output distribution *)
  beam_decoder : Type;
  cer : string → string → Q;
  wer : string → string → Q;
  greedy_decoder_batch : list (list frame) → list string → list string;
  BeamSearchDecoder : list string → beam_decoder;
  decode_batch_beam_search_offline :
    beam_decoder → list (list frame) → list string;
  labels_to_string : batch → list string → list string;
  (* model(inputs, input_lens) followed by softmax(outs, 2) *)
  forward_softmax : gmap string tensor → batch → list (list frame) * list nat;
  (* ctc_loss(...).mean() in evaluation mode *)
  ctc_loss_mean : gmap string tensor → batch → Q;
  (* forward, loss.mean(), backward, optimizer.step(), zero_grad() *)
  optimize_step :
    gmap string tensor → opt_state → batch → gmap string tensor * opt_state * Q;
}.

(** ** Logger output and observations *)

Inductive log_line :=
  | LogPretrainedLoaded (p : path)
  | LogResumed (p : path)
  | LogTrain (epoch : Z) (batch_id : nat) (loss : Q)
  | LogRule                                    (* '=' * 70 *)
  | LogTestBatch (batch_id : nat) (loss : Q) (metrics_type : string) (err : Q)
  | LogTestEpoch (epoch : Z) (loss err : Q)
  | LogSavingOnInterrupt (loss : Q)
  | LogSaved (model_path : path)
  | WarnRule
  | WarnRuleNewline
  | WarnCtcdecodersMissing
  | WarnSwitchedToGreedy                       (* after the missing library *)
  | WarnWindowsSwitchedToGreedy.

(** The lines that announce the switch to the greedy decoder. *)
Definition is_fallback_warning (l : log_line) : bool :=
  match l with
  | WarnSwitchedToGreedy | WarnWindowsSwitchedToGreedy => true
  | _ => false
  end.

(** What an observer of a run sees besides the log: every optimiser step
    and every call of [save_model] with its arguments.  The trace is not
    read by the program. *)
Inductive event :=
  | EvOptimizerStep (epoch : Z) (batch_id : nat)
  | EvSaveModel (epoch : Z) (error_type : string) (error_rate test_loss : Q)
      (best_model : bool).

Section Trainer.
Context `{Collaborators}.

(** ** The disk *)

(** The files of one checkpoint directory. *)
Record ckpt_dir := {
  model_pt : option (gmap string tensor);
  optimizer_pt : option opt_state;
  model_state : option json_obj;
}.

Definition exists_model_pt (d : gmap path ckpt_dir) (p : path) : bool :=
  bool_decide (is_Some (d !! p ≫= model_pt)).

Definition exists_optimizer_pt (d : gmap path ckpt_dir) (p : path) : bool :=
  bool_decide (is_Some (d !! p ≫= optimizer_pt)).

(** ** Configuration: [__init__] and [train] arguments, and the host *)

Record config := {
  use_model : string;
  metrics_type : string;
  nranks : nat;                     (* torch.cuda.device_count() *)
  local_rank : nat;
  platform_system : string;         (* platform.system() *)
  ctcdecoders_installed : bool;     (* can masr.decoders.beam_search_decoder be imported *)
  vocabulary : list string;
  train_loader : list batch;
  test_loader : list batch;
  num_epoch : Z;
  save_model_path : string;
  resume_model : option path;
  pretrained_model : option path;
  fresh_model : gmap string tensor;    (* parameters of the model as constructed *)
  fresh_optimizer : opt_state;
}.

(** ** The world *)

Record world := {
  w_disk : gmap path ckpt_dir;
  w_log : list log_line;
  w_trace : list event;
  w_intr : option nat;            (* statement boundaries left before an interrupt *)
  w_decoder : string;             (* self.decoder *)
  w_bsd : option beam_decoder;    (* self.beam_search_decoder *)
  w_epoch : option Z;             (* local [epoch]; unbound before the loop *)
  w_cl : option (Q * Q);          (* locals [c], [l]; bound by [c, l = self.__test(...)] *)
  w_best : Q;                     (* local [best_error_rate] *)
  w_model : gmap string tensor;   (* parameters of the bare module *)
  w_opt : opt_state;
  w_sched : Z;                    (* scheduler.last_epoch as handed to StepLR, plus the steps *)
}.

Definition set_disk (f : gmap path ckpt_dir → gmap path ckpt_dir) (w : world) : world :=
  {| w_disk := f (w_disk w); w_log := w_log w; w_trace := w_trace w;
     w_intr := w_intr w; w_decoder := w_decoder w; w_bsd := w_bsd w;
     w_epoch := w_epoch w; w_cl := w_cl w; w_best := w_best w;
     w_model := w_model w; w_opt := w_opt w; w_sched := w_sched w |}.

Definition add_log (l : log_line) (w : world) : world :=
  {| w_disk := w_disk w; w_log := w_log w ++ [l]; w_trace := w_trace w;
     w_intr := w_intr w; w_decoder := w_decoder w; w_bsd := w_bsd w;
     w_epoch := w_epoch w; w_cl := w_cl w; w_best := w_best w;
     w_model := w_model w; w_opt := w_opt w; w_sched := w_sched w |}.

Definition add_event (e : event) (w : world) : world :=
  {| w_disk := w_disk w; w_log := w_log w; w_trace := w_trace w ++ [e];
     w_intr := w_intr w; w_decoder := w_decoder w; w_bsd := w_bsd w;
     w_epoch := w_epoch w; w_cl := w_cl w; w_best := w_best w;
     w_model := w_model w; w_opt := w_opt w; w_sched := w_sched w |}.

Definition set_intr (i : option nat) (w : world) : world :=
  {| w_disk := w_disk w; w_log := w_log w; w_trace := w_trace w;
     w_intr := i; w_decoder := w_decoder w; w_bsd := w_bsd w;
     w_epoch := w_epoch w; w_cl := w_cl w; w_best := w_best w;
     w_model := w_model w; w_opt := w_opt w; w_sched := w_sched w |}.

Definition set_decoder (s : string) (w : world) : world :=
  {| w_disk := w_disk w; w_log := w_log w; w_trace := w_trace w;
     w_intr := w_intr w; w_decoder := s; w_bsd := w_bsd w;
     w_epoch := w_epoch w; w_cl := w_cl w; w_best := w_best w;
     w_model := w_model w; w_opt := w_opt w; w_sched := w_sched w |}.

Definition set_bsd (b : option beam_decoder) (w : world) : world :=
  {| w_disk := w_disk w; w_log := w_log w; w_trace := w_trace w;
     w_intr := w_intr w; w_decoder := w_decoder w; w_bsd := b;
     w_epoch := w_epoch w; w_cl := w_cl w; w_best := w_best w;
     w_model := w_model w; w_opt := w_opt w; w_sched := w_sched w |}.

Definition set_epoch (e : option Z) (w : world) : world :=
  {| w_disk := w_disk w; w_log := w_log w; w_trace := w_trace w;
     w_intr := w_intr w; w_decoder := w_decoder w; w_bsd := w_bsd w;
     w_epoch := e; w_cl := w_cl w; w_best := w_best w;
     w_model := w_model w; w_opt := w_opt w; w_sched := w_sched w |}.

Definition set_cl (cl : option (Q * Q)) (w : world) : world :=
  {| w_disk := w_disk w; w_log := w_log w; w_trace := w_trace w;
     w_intr := w_intr w; w_decoder := w_decoder w; w_bsd := w_bsd w;
     w_epoch := w_epoch w; w_cl := cl; w_best := w_best w;
     w_model := w_model w; w_opt := w_opt w; w_sched := w_sched w |}.

Definition set_best (b : Q) (w : world) : world :=
  {| w_disk := w_disk w; w_log := w_log w; w_trace := w_trace w;
     w_intr := w_intr w; w_decoder := w_decoder w; w_bsd := w_bsd w;
     w_epoch := w_epoch w; w_cl := w_cl w; w_best := b;
     w_model := w_model w; w_opt := w_opt w; w_sched := w_sched w |}.

Definition set_model (m : gmap string tensor) (w : world) : world :=
  {| w_disk := w_disk w; w_log := w_log w; w_trace := w_trace w;
     w_intr := w_intr w; w_decoder := w_decoder w; w_bsd := w_bsd w;
     w_epoch := w_epoch w; w_cl := w_cl w; w_best := w_best w;
     w_model := m; w_opt := w_opt w; w_sched := w_sched w |}.

Definition set_opt (o : opt_state) (w : world) : world :=
  {| w_disk := w_disk w; w_log := w_log w; w_trace := w_trace w;
     w_intr := w_intr w; w_decoder := w_decoder w; w_bsd := w_bsd w;
     w_epoch := w_epoch w; w_cl := w_cl w; w_best := w_best w;
     w_model := w_model w; w_opt := o; w_sched := w_sched w |}.

Definition set_sched (s : Z) (w : world) : world :=
  {| w_disk := w_disk w; w_log := w_log w; w_trace := w_trace w;
     w_intr := w_intr w; w_decoder := w_decoder w; w_bsd := w_bsd w;
     w_epoch := w_epoch w; w_cl := w_cl w; w_best := w_best w;
     w_model := w_model w; w_opt := w_opt w; w_sched := s |}.

(** ** The monad: state that survives an exception *)

Definition M (A : Type) : Type := world → world * result A.

#[global] Instance M_ret : MRet M := λ A a w, (w, Ok a).

#[global] Instance M_bind : MBind M := λ A B k m w,
  match m w with
  | (w', Ok a) => k a w'
  | (w', Raise e) => (w', Raise e)
  end.

Definition raise {A} (e : exn) : M A := λ w, (w, Raise e).

Definition get {A} (f : world → A) : M A := λ w, (w, Ok (f w)).

Definition modify (f : world → world) : M unit := λ w, (f w, Ok tt).

Definition lift {A} (r : result A) : M A := λ w, (w, r).

Definition when (b : bool) (m : M unit) : M unit := if b then m else mret tt.

(** [try: body  except KeyboardInterrupt: handler] *)
Definition try_except_interrupt (body handler : M unit) : M unit :=
  λ w, match body w with
       | (w', Raise KeyboardInterrupt) => handler w'
       | other => other
       end.

(** [for x in xs: body x] *)
Fixpoint for_each {A} (xs : list A) (body : A → M unit) : M unit :=
  match xs with
  | [] => mret tt
  | x :: xs' => body x;; for_each xs' body
  end.

(** [for x in xs: acc = body x acc] *)
Fixpoint for_fold {A B} (xs : list A) (body : A → B → M B) (acc : B) : M B :=
  match xs with
  | [] => mret acc
  | x :: xs' => acc' ← body x acc; for_fold xs' body acc'
  end.

(** [enumerate(xs)] *)
Definition enumerate {A} (xs : list A) : list (nat * A) :=
  zip (seq 0 (length xs)) xs.

Definition info (l : log_line) : M unit := modify (add_log l).
Definition warning (l : log_line) : M unit := modify (add_log l).
Definition observe (e : event) : M unit := modify (add_event e).

(** A statement boundary at which a pending interrupt is delivered. *)
Definition tick : M unit :=
  λ w, match w_intr w with
       | None => (w, Ok tt)
       | Some O => (set_intr None w, Raise KeyboardInterrupt)
       | Some (S n) => (set_intr (Some n) w, Ok tt)
       end.

(** ** Parameter dictionaries *)

(** Under more than one device [train] wraps the model in
    [DistributedDataParallel]; the wrapper's [state_dict()] names every
    parameter of the wrapped module with a leading ["module."]. *)
Definition ddp_prefix (cfg : config) : string :=
  if bool_decide (1 < nranks cfg) then "module." else "".

(** [handle.state_dict()] for a handle whose parameter names carry [pre]. *)
Definition state_dict (pre : string) (m : gmap string tensor) : gmap string tensor :=
  kmap (String.append pre) m.

(** [handle.load_state_dict(d)] (strict): the names of [d] must be exactly
    those of the handle.  Tensor shapes are not modelled. *)
Definition load_state_dict (pre : string) (m d : gmap string tensor)
    : result (gmap string tensor) :=
  if decide (dom d = dom (state_dict pre m))
  then Ok (map_imap (λ k _, d !! (pre +:+ k)) m)
  else Raise RuntimeError.

(** ** Checkpoint store: [save_model] *)

Definition makedirs_and_write (p : path) (files : ckpt_dir)
    (d : gmap path ckpt_dir) : gmap path ckpt_dir :=
  <[p := files]> d.

Definition rmtree (p : path) (d : gmap path ckpt_dir) : gmap path ckpt_dir :=
  delete p d.

Definition copytree (src dst : path) (d : gmap path ckpt_dir) : gmap path ckpt_dir :=
  match d !! src with
  | Some files => <[dst := files]> d
  | None => d
  end.

Definition save_model_disk (save_model_path use_model : string) (epoch : Z)
    (model : gmap string tensor) (optimizer : opt_state) (error_type : string)
    (error_rate test_loss : Q) (best_model : bool)
    (d : gmap path ckpt_dir) : gmap path ckpt_dir :=
  let files :=
    {| model_pt := Some model;
       optimizer_pt := Some optimizer;
       model_state := Some (state_record epoch error_type error_rate test_loss) |} in
  if negb best_model then
    let model_path := Ckpt save_model_path use_model (Epoch epoch) in
    let d := makedirs_and_write model_path files d in
    let last_model_path := Ckpt save_model_path use_model LastModel in
    let d := rmtree last_model_path d in
    let d := copytree model_path last_model_path d in
    let old_model_path := Ckpt save_model_path use_model (Epoch (epoch - 3)) in
    if bool_decide (is_Some (d !! old_model_path)) then rmtree old_model_path d else d
  else
    let model_path := Ckpt save_model_path use_model BestModel in
    makedirs_and_write model_path files d.

Definition saved_path (save_model_path use_model : string) (epoch : Z)
    (best_model : bool) : path :=
  if negb best_model then Ckpt save_model_path use_model (Epoch epoch)
  else Ckpt save_model_path use_model BestModel.

Definition save_model (save_model_path use_model : string) (epoch : Z)
    (model : gmap string tensor) (optimizer : opt_state) (error_type : string)
    (error_rate test_loss : Q) (best_model : bool) : M unit :=
  observe (EvSaveModel epoch error_type error_rate test_loss best_model);;
  modify (set_disk (save_model_disk save_model_path use_model epoch model
                      optimizer error_type error_rate test_loss best_model));;
  info (LogSaved (saved_path save_model_path use_model epoch best_model)).

(** ** Decoding: [decoder_result] *)

(** [[outs[i, :l, :] for i, l in enumerate(outs_lens)]], from index [i]. *)
Fixpoint trim_from (i : nat) (outs : list (list frame)) (outs_lens : list nat)
    : result (list (list frame)) :=
  match outs_lens with
  | [] => Ok []
  | l :: ls =>
      match outs !! i with
      | None => Raise IndexError
      | Some o =>
          match trim_from (S i) outs ls with
          | Ok rest => Ok (take l o :: rest)
          | Raise e => Raise e
          end
      end
  end.

(** The first half of [decoder_result]: the decoder is settled at the
    first call that asks for beam search. *)
Definition select_decoder (cfg : config) (vocabulary : list string) : M unit :=
  decoder ← get w_decoder;
  bsd ← get w_bsd;
  when (String.eqb decoder "ctc_beam_search" && bool_decide (bsd = None))
    (if negb (String.eqb (platform_system cfg) "Windows") then
       if ctcdecoders_installed cfg then
         modify (set_bsd (Some (BeamSearchDecoder vocabulary)))
       else
         warning WarnRule;;
         warning WarnCtcdecodersMissing;;
         warning WarnSwitchedToGreedy;;
         warning WarnRuleNewline;;
         modify (set_decoder "ctc_greedy")
     else
       warning WarnRule;;
       warning WarnWindowsSwitchedToGreedy;;
       warning WarnRuleNewline;;
       modify (set_decoder "ctc_greedy")).

(** The second half of [decoder_result], for given values of
    [self.decoder] and [self.beam_search_decoder]. *)
Definition decode_with (decoder : string) (bsd : option beam_decoder)
    (outs : list (list frame)) (outs_lens : list nat) (vocabulary : list string)
    : result (list string) :=
  match trim_from 0 outs outs_lens with
  | Raise e => Raise e
  | Ok outs =>
      if String.eqb decoder "ctc_greedy" then
        Ok (greedy_decoder_batch outs vocabulary)
      else
        match bsd with
        | Some b => Ok (decode_batch_beam_search_offline b outs)
        | None => Raise AttributeError
        end
  end.

Definition decoder_result (cfg : config) (outs : list (list frame))
    (outs_lens : list nat) (vocabulary : list string) : M (list string) :=
  select_decoder cfg vocabulary;;
  decoder ← get w_decoder;
  bsd ← get w_bsd;
  lift (decode_with decoder bsd outs outs_lens vocabulary).

(** The world after the decoder has been settled. *)
Definition after_select (cfg : config) (vocabulary : list string) (w : world)
    : world :=
  (select_decoder cfg vocabulary w).1.

(** The greedy decoding of a batch, as [decoder_result] returns it. *)
Definition greedy_result (outs : list (list frame)) (outs_lens : list nat)
    (vocabulary : list string) : result (list string) :=
  decode_with "ctc_greedy" None outs outs_lens vocabulary.

(** A run of [decoder_result] calls on one trainer: the results, in order. *)
Fixpoint decode_all (cfg : config)
    (calls : list (list (list frame) * list nat * list string))
    : M (list (list string)) :=
  match calls with
  | [] => mret []
  | c :: calls' =>
      r ← decoder_result cfg c.1.1 c.1.2 c.2;
      rs ← decode_all cfg calls';
      mret (r :: rs)
  end.

(** ** Evaluation: [__test] and [evaluate] *)

(** The error of one sample: [wer] for the string ['wer'], else [cer]. *)
Definition sample_error (metrics_type : string) (out_string label : string) : Q :=
  if String.eqb metrics_type "wer" then wer out_string label
  else cer out_string label.

(** The errors of one batch, in the order of [zip(out_strings, labels_str)]. *)
Definition batch_errors (metrics_type : string) (out_strings labels_str : list string)
    : list Q :=
  (λ ol, sample_error metrics_type ol.1 ol.2) <$> zip out_strings labels_str.

(** One iteration of the loop of [__test]; the accumulator is
    [(cer_result, test_loss)]. *)
Definition test_batch (cfg : config) (ib : nat * batch) (acc : list Q * list Q)
    : M (list Q * list Q) :=
  let batch_id := ib.1 in
  model ← get w_model;
  let loss := ctc_loss_mean model ib.2 in
  let test_loss := acc.2 ++ [loss] in
  let outs := forward_softmax model ib.2 in
  out_strings ← decoder_result cfg outs.1 outs.2 (vocabulary cfg);
  let labels_str := labels_to_string ib.2 (vocabulary cfg) in
  let cer_batch := batch_errors (metrics_type cfg) out_strings labels_str in
  let cer_result := acc.1 ++ cer_batch in
  when (Z.of_nat batch_id mod 10 =? 0)%Z
    (m ← lift (mean cer_batch);
     info (LogTestBatch batch_id loss (metrics_type cfg) m));;
  mret (cer_result, test_loss).

Definition __test (cfg : config) : M (Q * Q) :=
  acc ← for_fold (enumerate (test_loader cfg)) (test_batch cfg) ([], []);
  cer_result ← lift (mean acc.1);
  test_loss ← lift (mean acc.2);
  mret (cer_result, test_loss).

(** One iteration of the loop of [evaluate]; the accumulator is [c]. *)
Definition evaluate_batch (cfg : config) (b : batch) (c : list Q) : M (list Q) :=
  model ← get w_model;
  let outs := forward_softmax model b in
  out_strings ← decoder_result cfg outs.1 outs.2 (vocabulary cfg);
  let labels_str := labels_to_string b (vocabulary cfg) in
  mret (c ++ batch_errors (metrics_type cfg) out_strings labels_str).

(** [evaluate(resume_model=p)], from the construction of the model on. *)
Definition evaluate (cfg : config) (p : path) : M Q :=
  modify (set_model (fresh_model cfg));;
  d ← get w_disk;
  match d !! p ≫= model_pt with
  | None => raise (AssertionError "model.pt does not exist")
  | Some params =>
      model ← get w_model;
      model ← lift (load_state_dict "" model params);
      modify (set_model model);;
      c ← for_fold (test_loader cfg) (evaluate_batch cfg) [];
      lift (mean c)
  end.

(** ** [train]: loading pretrained weights and resuming *)

(** [if pretrained_model is not None: ...] *)
Definition load_pretrained (cfg : config) : M unit :=
  match pretrained_model cfg with
  | None => mret tt
  | Some p =>
      d ← get w_disk;
      match d !! p ≫= model_pt with
      | None => raise (AssertionError "pretrained model.pt does not exist")
      | Some pretrained_dict =>
          model ← get w_model;
          let model_dict := state_dict (ddp_prefix cfg) model in
          let pretrained_dict :=
            filter (λ kv, kv.1 ∈ dom model_dict) pretrained_dict in
          (* model_dict.update(pretrained_dict) *)
          let model_dict := pretrained_dict ∪ model_dict in
          model ← lift (load_state_dict (ddp_prefix cfg) model model_dict);
          modify (set_model model);;
          info (LogPretrainedLoaded p)
      end
  end.

Definition last_model_dir (cfg : config) : path :=
  Ckpt (save_model_path cfg) (use_model cfg) LastModel.

(** The condition of the resume branch. *)
Definition resume_requested (cfg : config) (d : gmap path ckpt_dir) : bool :=
  bool_decide (is_Some (resume_model cfg))
  || (exists_model_pt d (last_model_dir cfg)
      && exists_optimizer_pt d (last_model_dir cfg)).

(** [json_data['last_epoch'] - 1] *)
Definition minus_one (v : jval) : jval :=
  match v with
  | JInt n => JInt (n - 1)
  | JFloat x => JFloat (x - 1)
  end.

(** From [last_epoch = -1] to the log line of a successful resume; returns
    [last_epoch]. *)
Definition load_resume (cfg : config) : M jval :=
  modify (set_best 1);;
  d ← get w_disk;
  if resume_requested cfg d then
    let resume_model := default (last_model_dir cfg) (resume_model cfg) in
    match d !! resume_model ≫= model_pt with
    | None => raise (AssertionError "model.pt does not exist")
    | Some params =>
        match d !! resume_model ≫= optimizer_pt with
        | None => raise (AssertionError "optimizer.pt does not exist")
        | Some opt =>
            model ← get w_model;
            model ← lift (load_state_dict "" model params);
            modify (set_model model);;
            modify (set_opt opt);;
            match d !! resume_model ≫= model_state with
            | None => raise FileNotFoundError
            | Some json_data =>
                match json_get "last_epoch" json_data with
                | None => raise (KeyError "last_epoch")
                | Some v =>
                    let last_epoch := minus_one v in
                    match json_get "test_cer" json_data with
                    | Some x => modify (set_best (Qabs (jnum x)))
                    | None => mret tt
                    end;;
                    match json_get "test_wer" json_data with
                    | Some x => modify (set_best (Qabs (jnum x)))
                    | None => mret tt
                    end;;
                    info (LogResumed resume_model);;
                    mret last_epoch
                end
            end
        end
    end
  else mret (JInt (-1)).

(** The two loading steps of [train], in the order of the source. *)
Definition restore (cfg : config) : M jval :=
  load_pretrained cfg;;
  load_resume cfg.

(** ** [train]: the loop *)

(** The body of [for batch_id, (...) in enumerate(train_loader)]. *)
Definition train_batch (cfg : config) (epoch : Z) (ib : nat * batch) : M unit :=
  let batch_id := ib.1 in
  tick;;
  model ← get w_model;
  optimizer ← get w_opt;
  let r := optimize_step model optimizer ib.2 in
  modify (set_model r.1.1);;
  modify (set_opt r.1.2);;
  observe (EvOptimizerStep epoch batch_id);;
  tick;;
  when ((Z.of_nat batch_id mod 100 =? 0)%Z && (local_rank cfg =? 0))
    (info (LogTrain epoch batch_id r.2));;
  tick;;
  when ((Z.of_nat batch_id mod 10000 =? 0)%Z && negb (batch_id =? 0)
        && (local_rank cfg =? 0))
    (save_model (save_model_path cfg) (use_model cfg) epoch r.1.1 r.1.2
       "cer" 1 1000 false).

(** [if c <= best_error_rate: best_error_rate = c; save_model(..., best_model=True)] *)
Definition save_if_best (cfg : config) (epoch : Z) (cl : Q * Q) : M unit :=
  best_error_rate ← get w_best;
  model ← get w_model;
  optimizer ← get w_opt;
  when (Qle_bool cl.1 best_error_rate)
    (modify (set_best cl.1);;
     save_model (save_model_path cfg) (use_model cfg) epoch model optimizer
       (metrics_type cfg) cl.1 cl.2 true).

(** The evaluation and the two saves at the end of an epoch, on rank 0. *)
Definition end_of_epoch (cfg : config) (epoch : Z) : M unit :=
  tick;;
  info LogRule;;
  cl ← __test cfg;
  modify (set_cl (Some cl));;
  info (LogTestEpoch epoch cl.2 cl.1);;
  info LogRule;;
  tick;;
  save_if_best cfg epoch cl;;
  tick;;
  model ← get w_model;
  optimizer ← get w_opt;
  save_model (save_model_path cfg) (use_model cfg) epoch model optimizer
    (metrics_type cfg) cl.1 cl.2 false.

(** The body of [for epoch in range(last_epoch, num_epoch)], once the loop
    variable is bound. *)
Definition epoch_body (cfg : config) (epoch : Z) : M unit :=
  tick;;
  let epoch := (epoch + 1)%Z in
  modify (set_epoch (Some epoch));;
  for_each (enumerate (train_loader cfg)) (train_batch cfg epoch);;
  when (local_rank cfg =? 0) (end_of_epoch cfg epoch);;
  tick;;
  s ← get w_sched;
  modify (set_sched (s + 1)%Z).

(** One iteration of [for epoch in range(last_epoch, num_epoch)]. *)
Definition train_epoch (cfg : config) (epoch : Z) : M unit :=
  modify (set_epoch (Some epoch));;
  epoch_body cfg epoch.

(** [range(last_epoch, num_epoch)] *)
Definition py_range (lo hi : Z) : list Z := seqZ lo (hi - lo).

Definition train_loop (cfg : config) (last_epoch : Z) : M unit :=
  for_each (py_range last_epoch (num_epoch cfg)) (train_epoch cfg).

(** The handler of [except KeyboardInterrupt]. *)
Definition on_keyboard_interrupt (cfg : config) : M unit :=
  when (local_rank cfg =? 0)
    (cl ← get w_cl;
     match cl with
     | Some cl => info (LogSavingOnInterrupt cl.2)
     | None => modify (set_cl (Some (1, 1000)%Q))
     end;;
     epoch ← get w_epoch;
     model ← get w_model;
     optimizer ← get w_opt;
     cl ← get w_cl;
     match epoch, cl with
     | None, _ => raise (NameError "epoch")
     | Some _, None => raise (NameError "c")
     | Some epoch, Some cl =>
         save_model (save_model_path cfg) (use_model cfg) epoch model optimizer
           "cer" cl.1 cl.2 false
     end).

(** [try: for epoch in range(...)  except KeyboardInterrupt: ...] *)
Definition guarded_loop (cfg : config) (last_epoch : Z) : M unit :=
  try_except_interrupt (train_loop cfg last_epoch) (on_keyboard_interrupt cfg).

(** [train], from the construction of the model and the optimiser on. *)
Definition train (cfg : config) : M unit :=
  modify (set_epoch None);;
  modify (set_cl None);;
  modify (set_model (fresh_model cfg));;
  modify (set_opt (fresh_optimizer cfg));;
  last_epoch ← restore cfg;
  match last_epoch with
  | JFloat _ => raise TypeError      (* range() refuses a float *)
  | JInt last_epoch =>
      modify (set_sched last_epoch);;
      guarded_loop cfg last_epoch
  end.

(** ** Sequences of checkpoint writes *)

Record save_args := {
  sa_epoch : Z;
  sa_model : gmap string tensor;
  sa_optimizer : opt_state;
  sa_error_type : string;
  sa_error_rate : Q;
  sa_test_loss : Q;
  sa_best_model : bool;
}.

Definition files_of (a : save_args) : ckpt_dir :=
  {| model_pt := Some (sa_model a);
     optimizer_pt := Some (sa_optimizer a);
     model_state := Some (state_record (sa_epoch a) (sa_error_type a)
                            (sa_error_rate a) (sa_test_loss a)) |}.

Definition save_call (root variant : string) (a : save_args)
    (d : gmap path ckpt_dir) : gmap path ckpt_dir :=
  save_model_disk root variant (sa_epoch a) (sa_model a) (sa_optimizer a)
    (sa_error_type a) (sa_error_rate a) (sa_test_loss a) (sa_best_model a) d.

Definition save_calls (root variant : string) (calls : list save_args)
    (d : gmap path ckpt_dir) : gmap path ckpt_dir :=
  foldl (λ d a, save_call root variant a d) d calls.

(** The epochs of the non-best writes of a sequence, in order. *)
Definition numbered_epochs (calls : list save_args) : list Z :=
  sa_epoch <$> filter (λ a, sa_best_model a = false) calls.

(** Each epoch is the one before it or its successor. *)
Fixpoint consecutive_from (e : Z) (es : list Z) : Prop :=
  match es with
  | [] => True
  | e' :: es' => (e ≤ e' ≤ e + 1)%Z ∧ consecutive_from e' es'
  end.

Definition consecutive (es : list Z) : Prop :=
  match es with
  | [] => True
  | e :: es' => consecutive_from e es'
  end.

Definition is_numbered (root variant : string) (p : path) : bool :=
  match p with
  | Ckpt r v (Epoch _) => bool_decide (r = root ∧ v = variant)
  | _ => false
  end.

Definition is_under (root variant : string) (p : path) : bool :=
  match p with
  | Ckpt r v _ => bool_decide (r = root ∧ v = variant)
  | External _ => false
  end.

(** The numbered directories [epoch_N] of a variant that exist on disk. *)
Definition numbered_dirs (root variant : string) (d : gmap path ckpt_dir)
    : gset path :=
  filter (λ p, is_numbered root variant p) (dom d).

(** All checkpoint directories of a variant that exist on disk. *)
Definition variant_dirs (root variant : string) (d : gmap path ckpt_dir)
    : gset path :=
  filter (λ p, is_under root variant p) (dom d).

(** The retention window: every numbered directory of the variant lies
    within the last three epochs up to [last]; none exists before the
    first numbered write. *)
Definition window (root variant : string) (last : option Z)
    (d : gmap path ckpt_dir) : Prop :=
  ∀ n, is_Some (d !! Ckpt root variant (Epoch n)) →
       match last with
       | None => False
       | Some e => (e - 2 ≤ n ≤ e)%Z
       end.

Definition consecutive_after (last : option Z) (es : list Z) : Prop :=
  match last with
  | None => consecutive es
  | Some e => consecutive_from e es
  end.

(** ** Decoding and evaluation: what the properties speak of *)

(** How often the log announces the switch to the greedy decoder. *)
Definition count_fallback_warnings (log : list log_line) : nat :=
  length (List.filter is_fallback_warning log).

(** The trimmed outputs [[outs[i, :l, :] for i, l in enumerate(outs_lens)]]
    when every index is in range. *)
Definition trimmed (outs : list (list frame)) (outs_lens : list nat)
    : list (list frame) :=
  zip_with take outs_lens outs.

(** [self.decoder] and [self.beam_search_decoder] need no more selection. *)
Definition settled (w : world) : Prop :=
  w_decoder w ≠ "ctc_beam_search" ∨ w_bsd w ≠ None.

(** The arithmetic mean of a list of numbers. *)
Definition arithmetic_mean (xs : list Q) : Q :=
  (py_sum xs / inject_Z (Z.of_nat (length xs)))%Q.

(** The configuration with another value of [metrics_type]. *)
Definition with_metrics_type (cfg : config) (mt : string) : config :=
  {| use_model := use_model cfg; metrics_type := mt; nranks := nranks cfg;
     local_rank := local_rank cfg; platform_system := platform_system cfg;
     ctcdecoders_installed := ctcdecoders_installed cfg;
     vocabulary := vocabulary cfg; train_loader := train_loader cfg;
     test_loader := test_loader cfg; num_epoch := num_epoch cfg;
     save_model_path := save_model_path cfg; resume_model := resume_model cfg;
     pretrained_model := pretrained_model cfg; fresh_model := fresh_model cfg;
     fresh_optimizer := fresh_optimizer cfg |}.

(** The world without its log. *)
Definition erase_log (w : world) : world :=
  {| w_disk := w_disk w; w_log := []; w_trace := w_trace w;
     w_intr := w_intr w; w_decoder := w_decoder w; w_bsd := w_bsd w;
     w_epoch := w_epoch w; w_cl := w_cl w; w_best := w_best w;
     w_model := w_model w; w_opt := w_opt w; w_sched := w_sched w |}.

(** ** Resume: what the properties speak of *)

(** The directory a resume reads: the explicit path, else [last_model]. *)
Definition resume_dir (cfg : config) : path :=
  default (last_model_dir cfg) (resume_model cfg).

(** [best_error_rate] after the state record of a resumed checkpoint has
    been read: ['test_wer'] is looked at after ['test_cer']. *)
Definition resumed_best_error_rate (json_data : json_obj) : Q :=
  match json_get "test_wer" json_data with
  | Some x => Qabs (jnum x)
  | None =>
      match json_get "test_cer" json_data with
      | Some x => Qabs (jnum x)
      | None => 1%Q
      end
  end.

(** The world after a successful resume from directory [p]. *)
Definition resumed_world (p : path) (params : gmap string tensor)
    (opt : opt_state) (json_data : json_obj) (w : world) : world :=
  add_log (LogResumed p)
    (set_best (resumed_best_error_rate json_data)
       (set_opt opt (set_model params w))).

(** The parameters after [load_pretrained] has read [pretrained_dict]:
    under each name of the current model, the pretrained tensor of that
    name if there is one, else the current tensor. *)
Definition merged_state_dict (model_dict pretrained_dict : gmap string tensor)
    : gmap string tensor :=
  map_imap (λ k old, Some (default old (pretrained_dict !! k))) model_dict.

(** ** Observations of a run *)

(** The optimiser steps of a trace, as (epoch, batch_id), in order. *)
Definition steps_of (t : list event) : list (Z * nat) :=
  omap (λ ev, match ev with
              | EvOptimizerStep e i => Some (e, i)
              | EvSaveModel _ _ _ _ _ => None
              end) t.

(** The error rates handed to the [best_model] writes of a trace, in order. *)
Definition best_rates (t : list event) : list Q :=
  omap (λ ev, match ev with
              | EvSaveModel _ _ c _ true => Some c
              | _ => None
              end) t.

(** The metric that [model.state] of [best_model] holds after each of its
    writes. *)
Definition best_model_metrics (t : list event) : list Q :=
  fmt_f <$> best_rates t.

(** The steps of a run over [epochs] of the training loop. *)
Definition steps_of_epochs (cfg : config) (epochs : list Z) : list (Z * nat) :=
  epochs ≫= λ e, (λ i, ((e + 1)%Z, i)) <$> seq 0 (length (train_loader cfg)).

(** Later entries are at most earlier ones. *)
Definition non_increasing (xs : list Q) : Prop :=
  ∀ i j x y, i ≤ j → xs !! i = Some x → xs !! j = Some y → (y <= x)%Q.

(** The error rates of the [best_model] writes so far do not increase, and
    [best_error_rate] is at most each of them. *)
Definition best_so_far (w : world) : Prop :=
  non_increasing (best_rates (w_trace w))
  ∧ Forall (λ x, (w_best w <= x)%Q) (best_rates (w_trace w)).

(** ** Specifications of computations *)

(** A computation that leaves the trace, [best_error_rate] and [epoch]
    alone. *)
Definition quiet {A} (m : M A) : Prop :=
  ∀ w, w_trace (m w).1 = w_trace w
       ∧ w_best (m w).1 = w_best w
       ∧ w_epoch (m w).1 = w_epoch w.

(** A computation that keeps a property of the world, however it ends. *)
Definition inv {A} (I : world → Prop) (m : M A) : Prop :=
  ∀ w, I w → I (m w).1.

(** A computation that adds to the trace a prefix of the optimiser steps
    [expected], and all of them when it returns. *)
Definition emits {A} (m : M A) (expected : list (Z * nat)) : Prop :=
  ∀ w, ∃ ys,
    steps_of (w_trace (m w).1) = steps_of (w_trace w) ++ ys
    ∧ ys `prefix_of` expected
    ∧ ∀ a, (m w).2 = Ok a → ys = expected.

(** A computation that, with no interrupt pending, leaves none pending and
    does not raise [KeyboardInterrupt]. *)
Definition calm {A} (m : M A) : Prop :=
  ∀ w, w_intr w = None →
       w_intr (m w).1 = None ∧ (m w).2 ≠ Raise KeyboardInterrupt.

(** A computation that adds no optimiser step to the trace. *)
Definition stepless {A} (m : M A) : Prop :=
  ∀ w, steps_of (w_trace (m w).1) = steps_of (w_trace w).

(** A computation that only adds to the optimiser steps of the trace. *)
Definition extends {A} (m : M A) : Prop :=
  ∀ w, ∃ ys, steps_of (w_trace (m w).1) = steps_of (w_trace w) ++ ys.

(** A computation that, with no interrupt pending, returns, leaves none
    pending and adds no optimiser step. *)
Definition passes {A} (m : M A) : Prop :=
  ∀ w, w_intr w = None →
       ∃ a, (m w).2 = Ok a ∧ w_intr (m w).1 = None
            ∧ steps_of (w_trace (m w).1) = steps_of (w_trace w).

(** A computation whose first optimiser step, with no interrupt pending,
    is [x]. *)
Definition starts_with {A} (x : Z * nat) (m : M A) : Prop :=
  ∀ w, w_intr w = None →
       ∃ zs, steps_of (w_trace (m w).1) = steps_of (w_trace w) ++ x :: zs.

(** ** More on sequences of checkpoint writes *)



(** ** Frames of computations *)


(** Everything but the log, [self.decoder] and
    [self.beam_search_decoder] is the same, and the log has only grown. *)
Definition read_only (w w' : world) : Prop :=
  w_disk w' = w_disk w ∧ w_model w' = w_model w ∧ w_opt w' = w_opt w
  ∧ w_trace w' = w_trace w ∧ w_best w' = w_best w ∧ w_epoch w' = w_epoch w
  ∧ w_cl w' = w_cl w ∧ w_sched w' = w_sched w ∧ w_intr w' = w_intr w
  ∧ w_log w `prefix_of` w_log w'.

(** The writes of a trace. *)
Definition saves_of (t : list event) : list event :=
  omap (λ ev, match ev with
              | EvSaveModel _ _ _ _ _ => Some ev
              | EvOptimizerStep _ _ => None
              end) t.

(** The disk, the log, the decoder, the best error rate and the results of
    the last evaluation are the same, and no write has been observed. *)
Definition silent (w w' : world) : Prop :=
  w_disk w' = w_disk w ∧ w_log w' = w_log w ∧ w_decoder w' = w_decoder w
  ∧ w_bsd w' = w_bsd w ∧ w_best w' = w_best w ∧ w_cl w' = w_cl w
  ∧ saves_of (w_trace w') = saves_of (w_trace w).

(** Every directory outside [root/variant] is as it was. *)
Definition outside_kept (root variant : string) (w w' : world) : Prop :=
  ∀ p, is_under root variant p = false → w_disk w' !! p = w_disk w !! p.


(** ** The end of a run *)




(** ** The vocabulary file: [create_data] *)

(** One step of [sorted(counter.items(), key=lambda x: x[1], reverse=True)]:
    the sort is stable, so an item goes before the first one whose count
    is not larger than its own. *)
Fixpoint insert_by_count (x : string * Z) (ys : list (string * Z))
    : list (string * Z) :=
  match ys with
  | [] => [x]
  | y :: ys' => if (x.2 <? y.2)%Z then y :: insert_by_count x ys' else x :: ys
  end.

(** [count_sorted], from [counter.items()] in the order of first
    occurrence. *)
Definition count_sorted (items : list (string * Z)) : list (string * Z) :=
  foldr insert_by_count [] items.

(** The loop over [count_sorted]; a line ['%s\t%d\n' % (char, count)] is
    the pair of its two fields. *)
Fixpoint vocab_loop (count_threshold : Z) (count_sorted : list (string * Z))
    : list (string * Z) :=
  match count_sorted with
  | [] => []
  | (char, count) :: rest =>
      let char := if String.eqb char " " then "<space>" else char in
      if (count <? count_threshold)%Z then []
      else (char, count) :: vocab_loop count_threshold rest
  end.

(** The lines of the vocabulary file that [create_data] writes for the
    counter [items]. *)
Definition dataset_vocab (count_threshold : Z) (items : list (string * Z))
    : list (string * Z) :=
  ("<blank>", (-1)%Z) :: ("<unk>", (-1)%Z)
    :: vocab_loop count_threshold (count_sorted items).




(** ** The exported model: [export] *)








End Trainer.

(* ================================================================== *)
(** * A small instance

    A one-parameter model whose decoders echo what the network "hears":
    a sample is a pair of the heard string and the reference label. *)

Definition toy_cer (a b : string) : Q := if String.eqb a b then 0%Q else 1%Q.

Definition toy_wer (a b : string) : Q := if String.eqb a b then 0%Q else (1 # 2)%Q.

Definition toy : Collaborators := {|
  tensor := Z;
  opt_state := nat;
  batch := list (string * string);
  frame := string;
  beam_decoder := unit;
  cer := toy_cer;
  wer := toy_wer;
  greedy_decoder_batch := λ outs _, (λ o, String.concat "" o) <$> outs;
  BeamSearchDecoder := λ _, tt;
  decode_batch_beam_search_offline := λ _ outs, (λ o, String.concat "" o) <$> outs;
  labels_to_string := λ b _, snd <$> b;
  forward_softmax := λ _ b, ((λ s, [s.1]) <$> b, (λ _, 1) <$> b);
  ctc_loss_mean := λ _ b, inject_Z (Z.of_nat (length b));
  optimize_step := λ m o b, (m, S o, 1%Q);
|}.

Section Toy.
#[local] Existing Instance toy.

(** Two epochs on one training batch, evaluated on one batch of two
    samples, on a single device. *)
Definition toy_cfg : config := {|
  use_model := "deepspeech2";
  metrics_type := "cer";
  nranks := 1;
  local_rank := 0;
  platform_system := "Linux";
  ctcdecoders_installed := false;
  vocabulary := [];
  train_loader := [[("a", "a")]];
  test_loader := [[("a", "a"); ("b", "c")]];
  num_epoch := 2;
  save_model_path := "models";
  resume_model := None;
  pretrained_model := None;
  fresh_model := {[ "fc.weight" := 0%Z ]};
  fresh_optimizer := 0;
|}.

(** An empty disk, no interrupt pending, the greedy decoder. *)
Definition toy_world : world := {|
  w_disk := ∅;
  w_log := [];
  w_trace := [];
  w_intr := None;
  w_decoder := "ctc_greedy";
  w_bsd := None;
  w_epoch := None;
  w_cl := None;
  w_best := 1%Q;
  w_model := ∅;
  w_opt := 0;
  w_sched := 0%Z;
|}.

(** The world a first, complete run of [train] leaves behind. *)
Definition toy_trained : world := (train toy_cfg toy_world).1.

(** A fresh world with an interrupt due at the second statement boundary
    of the loop, in the first batch of the first epoch. *)
Definition toy_interrupted : world := set_intr (Some 1) toy_world.

(** The configuration with an unknown metric. *)
Definition toy_cfg_bogus_metric : config := with_metrics_type toy_cfg "bogus".

(** A trainer that asks for beam search where the decoder library is
    missing. *)
Definition toy_beam_world : world := set_decoder "ctc_beam_search" toy_world.

(** Three decoding calls: batches of one, two and one sample. *)
Definition toy_decode_calls
    : list (list (list frame) * list nat * list string) :=
  [ ([["a"; "b"]], [1], []);
    ([["c"]; ["d"; "e"]], [1; 2], []);
    ([["f"]], [0], []) ].

(** A pretrained checkpoint with one matching and one foreign name. *)
Definition toy_pretrained_dict : gmap string tensor :=
  {[ "fc.weight" := 7%Z; "rnn.bias" := 9%Z ]}.

Definition toy_pretrained_world : world :=
  set_model (fresh_model toy_cfg)
    (set_disk (λ d, <[ External "pretrained" :=
                         {| model_pt := Some toy_pretrained_dict;
                            optimizer_pt := None;
                            model_state := None |} ]> d) toy_trained).

Definition toy_cfg_pretrained : config := {|
  use_model := "deepspeech2";
  metrics_type := "cer";
  nranks := 1;
  local_rank := 0;
  platform_system := "Linux";
  ctcdecoders_installed := false;
  vocabulary := [];
  train_loader := [[("a", "a")]];
  test_loader := [[("a", "a"); ("b", "c")]];
  num_epoch := 2;
  save_model_path := "models";
  resume_model := Some (Ckpt "models" "deepspeech2" (Epoch 1));
  pretrained_model := Some (External "pretrained");
  fresh_model := {[ "fc.weight" := 0%Z ]};
  fresh_optimizer := 0;
|}.

Definition toy_save (epoch : Z) (best : bool) : save_args := {|
  sa_epoch := epoch;
  sa_model := {[ "fc.weight" := epoch ]};
  sa_optimizer := 0;
  sa_error_type := "cer";
  sa_error_rate := (1 # 2)%Q;
  sa_test_loss := 2%Q;
  sa_best_model := best;
|}.

(** The writes of six epochs, with a mid-epoch write in epoch 3. *)
Definition toy_saves : list save_args :=
  [ toy_save 0 true; toy_save 0 false; toy_save 1 false; toy_save 2 true;
    toy_save 2 false; toy_save 3 false; toy_save 3 false; toy_save 4 false;
    toy_save 5 true; toy_save 5 false ].







(** The characters of a small manifest with their counts, in the order of
    first occurrence. *)
Definition toy_counter : list (string * Z) :=
  [ ("a", 3%Z); (" ", 5%Z); ("b", 1%Z); ("c", 3%Z); ("d", 2%Z) ].

End Toy.

(* ================================================================== *)
(** * Properties *)

Section Properties.
Context `{Collaborators}.

(** ** The checkpoint store *)

Lemma save_model_disk_last_lookup root variant epoch model optimizer error_type
    error_rate test_loss (d : gmap path ckpt_dir) (p : path) :
  let files :=
    {| model_pt := Some model; optimizer_pt := Some optimizer;
       model_state := Some (state_record epoch error_type error_rate test_loss) |} in
  save_model_disk root variant epoch model optimizer error_type error_rate
    test_loss false d !! p
  = if decide (p = Ckpt root variant (Epoch (epoch - 3))) then None
    else if decide (p = Ckpt root variant LastModel
                    ∨ p = Ckpt root variant (Epoch epoch))
    then Some files
    else d !! p.
Proof.
  intros files. unfold save_model_disk, makedirs_and_write, rmtree, copytree.
  cbn [negb]. fold files.
  set (mp := Ckpt root variant (Epoch epoch)).
  set (lp := Ckpt root variant LastModel).
  set (op := Ckpt root variant (Epoch (epoch - 3))).
  assert (Hml : mp ≠ lp) by done.
  assert (Hmo : mp ≠ op) by (unfold mp, op; intros [= Heq]; lia).
  assert (Hlo : lp ≠ op) by done.
  rewrite lookup_delete_ne by done. rewrite lookup_insert_eq.
  assert (Hcases :
    <[lp:=files]> (delete lp (<[mp:=files]> d)) !! p
    = if decide (p = lp ∨ p = mp) then Some files else d !! p).
  { destruct (decide (p = lp)) as [->|Hp].
    - rewrite lookup_insert_eq. by rewrite decide_True by auto.
    - rewrite lookup_insert_ne, lookup_delete_ne by done.
      destruct (decide (p = mp)) as [->|Hp'].
      + rewrite lookup_insert_eq. by rewrite decide_True by auto.
      + rewrite lookup_insert_ne by done.
        by rewrite decide_False by (intros [?|?]; done). }
  case_bool_decide as Hold.
  - destruct (decide (p = op)) as [->|Hp].
    + apply lookup_delete_eq.
    + rewrite lookup_delete_ne by done. apply Hcases.
  - destruct (decide (p = op)) as [->|Hp]; [|apply Hcases].
    destruct (_ !! op) eqn:E; [|done]. exfalso. apply Hold. eauto.
Qed.

Lemma save_model_disk_best_lookup root variant epoch model optimizer error_type
    error_rate test_loss (d : gmap path ckpt_dir) (p : path) :
  save_model_disk root variant epoch model optimizer error_type error_rate
    test_loss true d !! p
  = if decide (p = Ckpt root variant BestModel)
    then Some {| model_pt := Some model; optimizer_pt := Some optimizer;
                 model_state := Some (state_record epoch error_type error_rate
                                        test_loss) |}
    else d !! p.
Proof.
  unfold save_model_disk, makedirs_and_write. cbn [negb].
  destruct (decide (p = _)) as [->|Hp].
  - apply lookup_insert_eq.
  - by rewrite lookup_insert_ne.
Qed.

Lemma size_union_le (X Y : gset path) : size (X ∪ Y) ≤ size X + size Y.
Proof.
  rewrite size_union_alt.
  assert (size (Y ∖ X) ≤ size Y).
  { apply subseteq_size. intros x. rewrite elem_of_difference. tauto. }
  lia.
Qed.

Lemma save_call_window root variant last (a : save_args) d :
  window root variant last d →
  (sa_best_model a = false →
   match last with
   | None => True
   | Some e => (e ≤ sa_epoch a ≤ e + 1)%Z
   end) →
  window root variant
    (if sa_best_model a then last else Some (sa_epoch a))
    (save_call root variant a d).
Proof.
  intros Hw Hstep. unfold save_call.
  destruct (sa_best_model a) eqn:Hb.
  - intros n. rewrite save_model_disk_best_lookup.
    rewrite decide_False by done. apply Hw.
  - specialize (Hstep eq_refl). intros n.
    rewrite save_model_disk_last_lookup. cbn zeta.
    destruct (decide _) as [|Hold]; [by intros [? [=]]|].
    destruct (decide _) as [Hor|Hnew].
    { intros _. destruct Hor as [Heq|Heq]; [discriminate|].
      injection Heq as ->. lia. }
    intros Hn. specialize (Hw n Hn).
    destruct last as [e|]; [|done].
    assert (n ≠ sa_epoch a - 3)%Z by (intros ->; by apply Hold).
    lia.
Qed.

Lemma numbered_epochs_cons (a : save_args) calls :
  numbered_epochs (a :: calls)
  = if sa_best_model a then numbered_epochs calls
    else sa_epoch a :: numbered_epochs calls.
Proof.
  unfold numbered_epochs. rewrite filter_cons.
  destruct (sa_best_model a); by case_decide.
Qed.

Lemma save_calls_window root variant calls : ∀ last d,
  window root variant last d →
  consecutive_after last (numbered_epochs calls) →
  ∃ last', window root variant last' (save_calls root variant calls d).
Proof.
  induction calls as [|a calls IH]; intros last d Hw Hc.
  - by exists last.
  - cbn [save_calls foldl].
    rewrite numbered_epochs_cons in Hc.
    apply (IH (if sa_best_model a then last else Some (sa_epoch a))).
    + apply save_call_window; [done|].
      intros Hb. rewrite Hb in Hc.
      destruct last as [e|]; [|done]. apply Hc.
    + destruct (sa_best_model a); [done|].
      destruct last as [e|]; cbn in Hc |- *; [apply Hc | done].
Qed.

Lemma window_numbered_size root variant last d :
  window root variant last d → size (numbered_dirs root variant d) ≤ 3.
Proof.
  intros Hw. unfold numbered_dirs.
  destruct last as [e|].
  - transitivity (size ({[ Ckpt root variant (Epoch (e - 2)) ]}
                        ∪ ({[ Ckpt root variant (Epoch (e - 1)) ]}
                           ∪ {[ Ckpt root variant (Epoch e) ]}) : gset path)).
    + apply subseteq_size. intros p.
      rewrite elem_of_filter, elem_of_dom. intros [Hnum Hp].
      destruct p as [r v [n| |]|]; try done. cbn in Hnum.
      apply bool_decide_unpack in Hnum as [-> ->].
      specialize (Hw n Hp). cbn in Hw.
      rewrite !elem_of_union, !elem_of_singleton.
      assert (n = e - 2 ∨ n = e - 1 ∨ n = e)%Z as [-> | [-> | ->]] by lia;
        auto.
    + etransitivity; [apply size_union_le|].
      etransitivity; [apply Nat.add_le_mono_l, size_union_le|].
      rewrite !size_singleton. lia.
  - replace (filter _ _) with (∅ : gset path); [rewrite size_empty; lia|].
    symmetry. apply set_eq. intros p. split; [|by rewrite elem_of_empty].
    rewrite elem_of_filter, elem_of_dom. intros [Hnum Hp].
    destruct p as [r v [n| |]|]; try done. cbn in Hnum.
    apply bool_decide_unpack in Hnum as [-> ->]. destruct (Hw n Hp).
Qed.

Lemma variant_dirs_size root variant d :
  size (variant_dirs root variant d) ≤ size (numbered_dirs root variant d) + 2.
Proof.
  transitivity (size (numbered_dirs root variant d
                      ∪ ({[ Ckpt root variant LastModel ]}
                         ∪ {[ Ckpt root variant BestModel ]}))).
  - apply subseteq_size. intros p. unfold variant_dirs, numbered_dirs.
    rewrite elem_of_union, !elem_of_filter.
    intros [Hu Hp]. destruct p as [r v [n| |]|]; try done; cbn in Hu;
      apply bool_decide_unpack in Hu as [-> ->].
    + left. split; [|done]. cbn. by apply bool_decide_pack.
    + right. rewrite elem_of_union, !elem_of_singleton. auto.
    + right. rewrite elem_of_union, !elem_of_singleton. auto.
  - etransitivity; [apply size_union_le|].
    apply Nat.add_le_mono_l.
    etransitivity; [apply size_union_le|]. by rewrite !size_singleton.
Qed.

(** C4.  Checkpoint retention.  A non-best [save_model] writes the numbered
    directory of its epoch, makes [last_model] a copy of it, removes the
    numbered directory of three epochs earlier and touches nothing else.
    Hence, from a root without numbered directories of the variant and for
    writes whose non-best epochs are consecutive, at most 4 numbered
    directories exist after the writes, and at most 4 + 2 directories of
    the variant in all ([last_model] and [best_model] being the other
    two). *)
Theorem save_model_retention root variant (calls : list save_args)
    (d : gmap path ckpt_dir) :
  numbered_dirs root variant d = ∅ →
  consecutive (numbered_epochs calls) →
  (∀ (a : save_args) (d0 : gmap path ckpt_dir),
     sa_best_model a = false →
     let d1 := save_call root variant a d0 in
     d1 !! Ckpt root variant (Epoch (sa_epoch a)) = Some (files_of a)
     ∧ d1 !! Ckpt root variant LastModel
       = d1 !! Ckpt root variant (Epoch (sa_epoch a))
     ∧ d1 !! Ckpt root variant (Epoch (sa_epoch a - 3)) = None
     ∧ ∀ p, p ≠ Ckpt root variant (Epoch (sa_epoch a)) →
            p ≠ Ckpt root variant LastModel →
            p ≠ Ckpt root variant (Epoch (sa_epoch a - 3)) →
            d1 !! p = d0 !! p)
  ∧ size (numbered_dirs root variant (save_calls root variant calls d)) ≤ 4
  ∧ size (variant_dirs root variant (save_calls root variant calls d)) ≤ 4 + 2.
Proof.
  intros Hempty Hcons. split.
  - intros a d0 Hb d1. subst d1. unfold save_call. rewrite Hb.
    rewrite !save_model_disk_last_lookup. cbn zeta.
    assert (Ckpt root variant (Epoch (sa_epoch a))
            ≠ Ckpt root variant (Epoch (sa_epoch a - 3)))
      by (intros [= Heq]; lia).
    repeat split.
    + rewrite decide_False by done. by rewrite decide_True by auto.
    + rewrite !(decide_False (P := _ = Ckpt _ _ (Epoch (_ - 3)))) by done.
      by rewrite !decide_True by auto.
    + by rewrite decide_True.
    + intros p Hp1 Hp2 Hp3. rewrite save_model_disk_last_lookup. cbn zeta.
      rewrite decide_False by done.
      by rewrite decide_False by (intros [?|?]; done).
  - assert (Hw : window root variant None d).
    { intros n Hn. apply (not_elem_of_empty (C := gset path)
        (Ckpt root variant (Epoch n))).
      rewrite <- Hempty. unfold numbered_dirs.
      rewrite elem_of_filter, elem_of_dom. split; [|done].
      cbn. by apply bool_decide_pack. }
    destruct (save_calls_window root variant calls None d Hw Hcons)
      as [last' Hw'].
    pose proof (window_numbered_size _ _ _ _ Hw') as Hn.
    pose proof (variant_dirs_size root variant
                  (save_calls root variant calls d)) as Hv.
    lia.
Qed.

(** ** The decoder *)

(** Unfolds the monadic operations of a goal. *)
Ltac munfold :=
  unfold mbind, M_bind, mret, M_ret, get, modify, lift, when, info, warning,
    observe, raise.

Lemma trim_from_ok (outs : list (list frame)) : ∀ (outs_lens : list nat) i,
  i + length outs_lens ≤ length outs →
  trim_from i outs outs_lens = Ok (trimmed (drop i outs) outs_lens).
Proof.
  induction outs_lens as [|l ls IH]; intros i Hlen; [done|].
  cbn [length] in Hlen. cbn [trim_from].
  destruct (outs !! i) as [o|] eqn:Ho.
  - rewrite IH by lia. unfold trimmed. by rewrite (drop_S _ _ _ Ho).
  - apply lookup_ge_None in Ho. lia.
Qed.

Lemma select_decoder_ok cfg v w : (select_decoder cfg v w).2 = Ok tt.
Proof.
  unfold select_decoder. munfold. cbn. by repeat case_match.
Qed.

Lemma decoder_result_unfold cfg outs outs_lens v w :
  decoder_result cfg outs outs_lens v w
  = (after_select cfg v w,
     decode_with (w_decoder (after_select cfg v w))
       (w_bsd (after_select cfg v w)) outs outs_lens v).
Proof.
  unfold decoder_result, after_select.
  pose proof (select_decoder_ok cfg v w) as Hok.
  unfold mbind at 1. unfold M_bind at 1.
  destruct (select_decoder cfg v w) as [w1 r]. cbn in Hok. subst r.
  by munfold.
Qed.

Lemma select_decoder_settled cfg v w :
  w_decoder w ≠ "ctc_beam_search" ∨ w_bsd w ≠ None →
  after_select cfg v w = w.
Proof.
  intros Hs. unfold after_select, select_decoder. munfold. cbn.
  destruct (String.eqb_spec (w_decoder w) "ctc_beam_search") as [Hd|Hd]; [|done].
  case_bool_decide as Hb; [|done]. by destruct Hs.
Qed.

Lemma select_decoder_fallback cfg v w :
  w_decoder w = "ctc_beam_search" →
  w_bsd w = None →
  platform_system cfg = "Windows" ∨ ctcdecoders_installed cfg = false →
  w_decoder (after_select cfg v w) = "ctc_greedy"
  ∧ count_fallback_warnings (w_log (after_select cfg v w))
    = S (count_fallback_warnings (w_log w)).
Proof.
  intros Hd Hb Henv. unfold after_select, select_decoder. munfold. cbn.
  rewrite Hd, Hb. cbn.
  unfold count_fallback_warnings.
  destruct (String.eqb_spec (platform_system cfg) "Windows") as [Hw|Hw]; cbn.
  - split; [done|]. rewrite <- !app_assoc, List.filter_app, length_app. cbn. lia.
  - destruct Henv as [?|Hi]; [done|]. rewrite Hi. cbn.
    split; [done|]. rewrite <- !app_assoc, List.filter_app, length_app. cbn. lia.
Qed.

Lemma decode_all_greedy cfg : ∀ calls w,
  w_decoder w = "ctc_greedy" →
  Forall (λ c : list (list frame) * list nat * list string,
            length c.1.2 ≤ length c.1.1) calls →
  decode_all cfg calls w
  = (w, Ok ((λ c, greedy_decoder_batch (trimmed c.1.1 c.1.2) c.2) <$> calls)).
Proof.
  induction calls as [|c calls IH]; intros w Hd Hshape; [done|].
  apply Forall_cons in Hshape as [Hc Hshape].
  cbn [decode_all]. unfold mbind at 1. unfold M_bind at 1.
  rewrite decoder_result_unfold.
  rewrite select_decoder_settled by (left; by rewrite Hd).
  unfold decode_with. rewrite trim_from_ok by (cbn; lia).
  rewrite Hd. cbn [String.eqb Ascii.eqb Bool.eqb]. cbn match.
  unfold mbind at 1. unfold M_bind at 1.
  rewrite (IH w Hd Hshape). by rewrite drop_0.
Qed.

(** C6.  Decoder fallback.  When beam search is asked for and the decoder
    library cannot be imported, or the platform is Windows, a run of one or
    more [decoder_result] calls logs the switch to the greedy decoder once,
    leaves [self.decoder] at ['ctc_greedy'], and every call, the first
    included, returns the greedy decoding of its trimmed batch. *)
Theorem decoder_fallback_once cfg
    (calls : list (list (list frame) * list nat * list string)) (w : world) :
  w_decoder w = "ctc_beam_search" →
  w_bsd w = None →
  platform_system cfg = "Windows" ∨ ctcdecoders_installed cfg = false →
  calls ≠ [] →
  Forall (λ c : list (list frame) * list nat * list string,
            length c.1.2 ≤ length c.1.1) calls →
  (decode_all cfg calls w).2
  = Ok ((λ c, greedy_decoder_batch (trimmed c.1.1 c.1.2) c.2) <$> calls)
  ∧ w_decoder (decode_all cfg calls w).1 = "ctc_greedy"
  ∧ count_fallback_warnings (w_log (decode_all cfg calls w).1)
    = S (count_fallback_warnings (w_log w)).
Proof.
  intros Hd Hb Henv Hne Hshape.
  destruct calls as [|c calls]; [done|].
  apply Forall_cons in Hshape as [Hc Hshape].
  destruct (select_decoder_fallback cfg c.2 w Hd Hb Henv) as [Hg Hcount].
  assert (Hrun : decode_all cfg (c :: calls) w
    = (after_select cfg c.2 w,
       Ok ((λ c, greedy_decoder_batch (trimmed c.1.1 c.1.2) c.2)
             <$> c :: calls))).
  { cbn [decode_all]. unfold mbind at 1. unfold M_bind at 1.
    rewrite decoder_result_unfold.
    unfold decode_with. rewrite trim_from_ok by (cbn; lia).
    rewrite Hg. cbn [String.eqb Ascii.eqb Bool.eqb]. cbn match.
    unfold mbind at 1. unfold M_bind at 1.
    rewrite (decode_all_greedy cfg calls _ Hg Hshape).
    cbn. by rewrite ?drop_0. }
  rewrite Hrun. by cbn [fst snd].
Qed.

(** ** The evaluator *)

Lemma after_select_settled cfg v w : settled (after_select cfg v w).
Proof.
  unfold settled, after_select, select_decoder. munfold. cbn.
  destruct (String.eqb_spec (w_decoder w) "ctc_beam_search") as [Hd|Hd];
    [|by left].
  case_bool_decide as Hb; cbn; [|by right].
  repeat case_match; cbn; (by left) || (by right).
Qed.

Lemma after_select_model cfg v w : w_model (after_select cfg v w) = w_model w.
Proof.
  unfold after_select, select_decoder. munfold. cbn. by repeat case_match.
Qed.

Lemma mean_cons x xs : mean (x :: xs) = Ok (arithmetic_mean (x :: xs)).
Proof. done. Qed.

Lemma mean_nonempty xs : xs ≠ [] → mean xs = Ok (arithmetic_mean xs).
Proof. by destruct xs. Qed.

Lemma test_batch_unfold cfg (ib : nat * batch) acc w :
  test_batch cfg ib acc w
  = let w1 := after_select cfg (vocabulary cfg) w in
    let outs := forward_softmax (w_model w) ib.2 in
    let loss := ctc_loss_mean (w_model w) ib.2 in
    match decode_with (w_decoder w1) (w_bsd w1) outs.1 outs.2 (vocabulary cfg) with
    | Raise e => (w1, Raise e)
    | Ok hs =>
        let errs := batch_errors (metrics_type cfg) hs
                      (labels_to_string ib.2 (vocabulary cfg)) in
        if (Z.of_nat ib.1 mod 10 =? 0)%Z then
          match mean errs with
          | Raise e => (w1, Raise e)
          | Ok m =>
              (add_log (LogTestBatch ib.1 loss (metrics_type cfg) m) w1,
               Ok (acc.1 ++ errs, acc.2 ++ [loss]))
          end
        else (w1, Ok (acc.1 ++ errs, acc.2 ++ [loss]))
    end.
Proof.
  unfold test_batch. unfold mbind at 1. unfold M_bind at 1. unfold get at 1.
  cbn beta iota zeta.
  unfold mbind at 1. unfold M_bind at 1.
  rewrite decoder_result_unfold.
  destruct (decode_with _ _ _ _ _) as [hs|e]; [|done].
  munfold. destruct ((Z.of_nat ib.1 mod 10 =? 0)%Z); cbn; [|done].
  by destruct (mean _).
Qed.

Lemma test_batch_run cfg (ib : nat * batch) acc w hs :
  let w1 := after_select cfg (vocabulary cfg) w in
  let outs := forward_softmax (w_model w) ib.2 in
  let errs := batch_errors (metrics_type cfg) hs
                (labels_to_string ib.2 (vocabulary cfg)) in
  decode_with (w_decoder w1) (w_bsd w1) outs.1 outs.2 (vocabulary cfg) = Ok hs →
  errs ≠ [] →
  ∃ w', test_batch cfg ib acc w
        = (w', Ok (acc.1 ++ errs, acc.2 ++ [ctc_loss_mean (w_model w) ib.2]))
        ∧ settled w' ∧ w_decoder w' = w_decoder w1 ∧ w_bsd w' = w_bsd w1
        ∧ w_model w' = w_model w.
Proof.
  intros w1 outs errs Hdec Herrs.
  pose proof (after_select_settled cfg (vocabulary cfg) w) as Hs.
  pose proof (after_select_model cfg (vocabulary cfg) w) as Hm.
  fold w1 in Hs, Hm.
  rewrite test_batch_unfold. cbn zeta. fold w1. fold outs. rewrite Hdec.
  fold errs. rewrite (mean_nonempty errs Herrs).
  destruct ((Z.of_nat ib.1 mod 10 =? 0)%Z).
  - eexists. split; [reflexivity|]. unfold settled in *. cbn. auto.
  - eexists. split; [reflexivity|]. unfold settled in *. cbn. auto.
Qed.

Lemma test_fold_run cfg dec bsd model : ∀ bs hss i acc w,
  w_decoder (after_select cfg (vocabulary cfg) w) = dec →
  w_bsd (after_select cfg (vocabulary cfg) w) = bsd →
  w_model w = model →
  Forall2 (λ b hs,
    decode_with dec bsd (forward_softmax model b).1 (forward_softmax model b).2
      (vocabulary cfg) = Ok hs
    ∧ batch_errors (metrics_type cfg) hs (labels_to_string b (vocabulary cfg))
      ≠ []) bs hss →
  ∃ w', for_fold (zip (seq i (length bs)) bs) (test_batch cfg) acc w
        = (w', Ok (acc.1 ++ concat (zip_with (λ b hs,
                      batch_errors (metrics_type cfg) hs
                        (labels_to_string b (vocabulary cfg))) bs hss),
                   acc.2 ++ (ctc_loss_mean model <$> bs))).
Proof.
  induction bs as [|b bs IH]; intros hss i acc w Hd Hb Hm Hall.
  - apply Forall2_nil_inv_l in Hall as ->. exists w. cbn.
    rewrite !app_nil_r. by destruct acc.
  - apply Forall2_cons_inv_l in Hall as (hs & hss' & [Hdec Herrs] & Hall & ->).
    cbn [length seq zip zip_with for_fold].
    destruct (test_batch_run cfg (i, b) acc w hs) as (w' & Hrun & Hs' & Hd' & Hb' & Hm').
    { cbn. by rewrite Hd, Hb, Hm. }
    { done. }
    unfold mbind at 1. unfold M_bind at 1. rewrite Hrun.
    destruct (IH hss' (S i) (acc.1 ++ batch_errors (metrics_type cfg) hs
                 (labels_to_string (i, b).2 (vocabulary cfg)),
               acc.2 ++ [ctc_loss_mean (w_model w) (i, b).2]) w')
      as (w'' & Hrun').
    { rewrite select_decoder_settled by done. by rewrite Hd'. }
    { rewrite select_decoder_settled by done. by rewrite Hb'. }
    { congruence. }
    { done. }
    exists w''. rewrite Hrun'. cbn. rewrite Hm. by rewrite <- !app_assoc.
Qed.

(** C8.  The evaluator.  On a held-out set with at least one batch, where
    every batch decodes and yields at least one sample, [__test] returns
    the arithmetic mean of all per-sample errors and the arithmetic mean of
    the per-batch losses: one error per sample, one loss per batch. *)
Theorem test_returns_means cfg (w : world) (hss : list (list string)) :
  let w1 := after_select cfg (vocabulary cfg) w in
  let errors :=
    concat (zip_with (λ b hs, batch_errors (metrics_type cfg) hs
                                (labels_to_string b (vocabulary cfg)))
              (test_loader cfg) hss) in
  let losses := ctc_loss_mean (w_model w) <$> test_loader cfg in
  test_loader cfg ≠ [] →
  Forall2 (λ b hs,
    decode_with (w_decoder w1) (w_bsd w1)
      (forward_softmax (w_model w) b).1 (forward_softmax (w_model w) b).2
      (vocabulary cfg) = Ok hs
    ∧ batch_errors (metrics_type cfg) hs (labels_to_string b (vocabulary cfg))
      ≠ []) (test_loader cfg) hss →
  (__test cfg w).2 = Ok (arithmetic_mean errors, arithmetic_mean losses)
  ∧ length losses = length (test_loader cfg)
  ∧ length errors
    = sum_list (zip_with (λ b hs,
        length hs `min` length (labels_to_string b (vocabulary cfg)))
        (test_loader cfg) hss).
Proof.
  intros w1 errors losses Hne Hall.
  destruct (test_fold_run cfg (w_decoder w1) (w_bsd w1) (w_model w)
              (test_loader cfg) hss 0 ([], []) w eq_refl eq_refl eq_refl Hall)
    as (w' & Hrun).
  split; [|split].
  - unfold __test, enumerate. unfold mbind at 1. unfold M_bind at 1.
    rewrite Hrun. cbn [fst snd app]. fold errors. fold losses.
    assert (Herr : errors ≠ []).
    { subst errors. destruct Hall as [|b hs bs hss' [_ Hb] _]; [done|].
      cbn. intros Heq. apply app_eq_nil in Heq as [? _]. done. }
    assert (Hloss : losses ≠ []).
    { subst losses. by destruct (test_loader cfg). }
    rewrite (mean_nonempty _ Herr), (mean_nonempty _ Hloss). by munfold.
  - subst losses. by rewrite length_fmap.
  - subst errors. clear Hrun Hne. induction Hall as [|b hs bs hss' _ _ IH]; [done|].
    cbn. rewrite length_app, IH. f_equal.
    unfold batch_errors. by rewrite length_fmap, length_zip.
Qed.

(** ** The choice of the metric *)

Lemma sample_error_not_wer mt o l : mt ≠ "wer" → sample_error mt o l = cer o l.
Proof.
  intros Hmt. unfold sample_error.
  by destruct (String.eqb_spec mt "wer").
Qed.

Lemma batch_errors_not_wer mt hs ls :
  mt ≠ "wer" → batch_errors mt hs ls = (λ ol, cer ol.1 ol.2) <$> zip hs ls.
Proof.
  intros Hmt. unfold batch_errors. apply list_fmap_ext.
  intros i [o l] _. by apply sample_error_not_wer.
Qed.

Lemma erase_log_fields w1 w2 :
  erase_log w1 = erase_log w2 →
  w_disk w1 = w_disk w2 ∧ w_decoder w1 = w_decoder w2 ∧ w_bsd w1 = w_bsd w2
  ∧ w_model w1 = w_model w2.
Proof.
  intros Heq.
  repeat split.
  - apply (f_equal w_disk) in Heq. apply Heq.
  - apply (f_equal w_decoder) in Heq. apply Heq.
  - apply (f_equal w_bsd) in Heq. apply Heq.
  - apply (f_equal w_model) in Heq. apply Heq.
Qed.

Lemma after_select_erase cfg mt v w1 w2 :
  erase_log w1 = erase_log w2 →
  erase_log (after_select cfg v w1)
  = erase_log (after_select (with_metrics_type cfg mt) v w2).
Proof.
  intros Heq. unfold after_select, select_decoder. munfold. cbn.
  unfold erase_log in Heq.
  injection Heq as Hdisk Htrace Hintr Hdec Hbsd Hepoch Hcl Hbest Hmodel Hopt Hsched.
  rewrite Hdec, Hbsd.
  repeat case_match; unfold erase_log; cbn; congruence.
Qed.

Lemma test_batch_metric cfg ib acc w1 w2 :
  metrics_type cfg ≠ "wer" →
  erase_log w1 = erase_log w2 →
  (test_batch cfg ib acc w1).2
  = (test_batch (with_metrics_type cfg "cer") ib acc w2).2
  ∧ erase_log (test_batch cfg ib acc w1).1
    = erase_log (test_batch (with_metrics_type cfg "cer") ib acc w2).1.
Proof.
  intros Hmt Heq.
  pose proof (after_select_erase cfg "cer" (vocabulary cfg) w1 w2 Heq) as Hsel.
  destruct (erase_log_fields _ _ Heq) as (_ & _ & _ & Hm).
  destruct (erase_log_fields _ _ Hsel) as (_ & Hd' & Hb' & _).
  rewrite !test_batch_unfold. cbn zeta.
  cbn [vocabulary metrics_type with_metrics_type].
  rewrite <- Hd', <- Hb', <- Hm.
  destruct (decode_with _ _ _ _ _) as [hs|e]; [|by split].
  rewrite (batch_errors_not_wer (metrics_type cfg)) by done.
  rewrite (batch_errors_not_wer "cer") by done.
  destruct ((Z.of_nat ib.1 mod 10 =? 0)%Z); [|by split].
  destruct (mean _); [|by split].
  split; [done|]. unfold erase_log in *. cbn. congruence.
Qed.

Lemma for_fold_erase {A B} (f g : A → B → M B) (xs : list A) :
  (∀ x acc w1 w2, erase_log w1 = erase_log w2 →
     (f x acc w1).2 = (g x acc w2).2
     ∧ erase_log (f x acc w1).1 = erase_log (g x acc w2).1) →
  ∀ acc w1 w2, erase_log w1 = erase_log w2 →
    (for_fold xs f acc w1).2 = (for_fold xs g acc w2).2
    ∧ erase_log (for_fold xs f acc w1).1 = erase_log (for_fold xs g acc w2).1.
Proof.
  intros Hstep. induction xs as [|x xs IH]; intros acc w1 w2 Heq; [done|].
  cbn [for_fold]. unfold mbind, M_bind.
  destruct (Hstep x acc w1 w2 Heq) as [Hr Hw].
  destruct (f x acc w1) as [w1' r1], (g x acc w2) as [w2' r2].
  cbn in Hr, Hw. subst r2. destruct r1 as [acc'|e]; [|done].
  by apply IH.
Qed.

Lemma evaluate_batch_unfold cfg (b : batch) c w :
  evaluate_batch cfg b c w
  = let w1 := after_select cfg (vocabulary cfg) w in
    let outs := forward_softmax (w_model w) b in
    match decode_with (w_decoder w1) (w_bsd w1) outs.1 outs.2 (vocabulary cfg) with
    | Raise e => (w1, Raise e)
    | Ok hs =>
        (w1, Ok (c ++ batch_errors (metrics_type cfg) hs
                        (labels_to_string b (vocabulary cfg))))
    end.
Proof.
  unfold evaluate_batch. unfold mbind at 1. unfold M_bind at 1. unfold get at 1.
  cbn beta iota zeta.
  unfold mbind at 1. unfold M_bind at 1.
  rewrite decoder_result_unfold.
  by destruct (decode_with _ _ _ _ _) as [hs|e].
Qed.

Lemma evaluate_batch_metric cfg b c w1 w2 :
  metrics_type cfg ≠ "wer" →
  erase_log w1 = erase_log w2 →
  (evaluate_batch cfg b c w1).2
  = (evaluate_batch (with_metrics_type cfg "cer") b c w2).2
  ∧ erase_log (evaluate_batch cfg b c w1).1
    = erase_log (evaluate_batch (with_metrics_type cfg "cer") b c w2).1.
Proof.
  intros Hmt Heq.
  pose proof (after_select_erase cfg "cer" (vocabulary cfg) w1 w2 Heq) as Hsel.
  destruct (erase_log_fields _ _ Heq) as (_ & _ & _ & Hm).
  destruct (erase_log_fields _ _ Hsel) as (_ & Hd' & Hb' & _).
  rewrite !evaluate_batch_unfold. cbn zeta.
  cbn [vocabulary metrics_type with_metrics_type].
  rewrite <- Hd', <- Hb', <- Hm.
  destruct (decode_with _ _ _ _ _) as [hs|e]; [|by split].
  rewrite (batch_errors_not_wer (metrics_type cfg)) by done.
  by rewrite (batch_errors_not_wer "cer") by done.
Qed.

(** ** Parameter dictionaries *)

Lemma state_dict_lookup pre (m : gmap string tensor) k :
  state_dict pre m !! (pre +:+ k) = m !! k.
Proof. unfold state_dict. apply (lookup_kmap (String.append pre)). Qed.

Lemma state_dict_lookup_Some pre (m : gmap string tensor) k' x :
  state_dict pre m !! k' = Some x ↔ ∃ k, k' = pre +:+ k ∧ m !! k = Some x.
Proof. unfold state_dict. apply (lookup_kmap_Some (String.append pre)). Qed.

Lemma state_dict_empty_prefix (m : gmap string tensor) : state_dict "" m = m.
Proof.
  apply map_eq. intros k.
  change k with ("" +:+ k) at 1. apply state_dict_lookup.
Qed.

Lemma load_state_dict_ok pre (m d : gmap string tensor) :
  dom d = dom (state_dict pre m) →
  ∃ m', load_state_dict pre m d = Ok m' ∧ state_dict pre m' = d.
Proof.
  intros Hdom. unfold load_state_dict. rewrite decide_True by done.
  eexists. split; [done|]. apply map_eq. intros k'.
  destruct (d !! k') as [x|] eqn:Hd.
  - assert (Hin : k' ∈ dom (state_dict pre m))
      by (rewrite <- Hdom; apply elem_of_dom; eauto).
    apply elem_of_dom in Hin as [y Hy].
    apply state_dict_lookup_Some in Hy as (k & -> & Hk).
    rewrite state_dict_lookup, map_lookup_imap, Hk. cbn. done.
  - destruct (state_dict pre (map_imap _ m) !! k') as [y|] eqn:Hy; [|done].
    apply state_dict_lookup_Some in Hy as (k & -> & Hk).
    rewrite map_lookup_imap in Hk.
    destruct (m !! k); cbn in Hk; congruence.
Qed.

Lemma load_state_dict_bare (m d : gmap string tensor) :
  dom d = dom m → load_state_dict "" m d = Ok d.
Proof.
  intros Hdom. destruct (load_state_dict_ok "" m d) as (m' & -> & Hm').
  - by rewrite state_dict_empty_prefix.
  - by rewrite state_dict_empty_prefix in Hm'; subst.
Qed.

Lemma pretrained_update (model_dict pretrained_dict : gmap string tensor) :
  filter (λ kv, kv.1 ∈ dom model_dict) pretrained_dict ∪ model_dict
  = merged_state_dict model_dict pretrained_dict.
Proof.
  apply map_eq. intros k. unfold merged_state_dict.
  rewrite lookup_union, map_lookup_filter, map_lookup_imap.
  destruct (model_dict !! k) as [old|] eqn:Hm; cbn.
  - destruct (pretrained_dict !! k) as [x|] eqn:Hp; cbn; [|done].
    rewrite option_guard_True by (apply elem_of_dom; eauto). done.
  - destruct (pretrained_dict !! k) as [x|] eqn:Hp; cbn; [|done].
    rewrite option_guard_False; [done|].
    by rewrite elem_of_dom, Hm; intros [? ?].
Qed.

Lemma merged_state_dict_dom (model_dict pretrained_dict : gmap string tensor) :
  dom (merged_state_dict model_dict pretrained_dict) = dom model_dict.
Proof.
  apply set_eq. intros k. rewrite !elem_of_dom. unfold merged_state_dict.
  rewrite map_lookup_imap. destruct (model_dict !! k); cbn;
    split; intros [? ?]; eauto; done.
Qed.

(** ** Loading pretrained weights and resuming *)

Lemma load_state_dict_dom pre (m d m' : gmap string tensor) :
  load_state_dict pre m d = Ok m' → dom m' = dom m.
Proof.
  unfold load_state_dict. case_decide as Hdom; [|done]. intros [= <-].
  apply set_eq. intros k. rewrite !elem_of_dom, map_lookup_imap.
  destruct (m !! k) as [x|] eqn:Hk; cbn.
  - split; [eauto|]. intros _. apply elem_of_dom. rewrite Hdom.
    apply elem_of_dom. rewrite state_dict_lookup. eauto.
  - split; intros [? ?]; done.
Qed.

Lemma load_pretrained_unfold cfg w :
  load_pretrained cfg w
  = match pretrained_model cfg with
    | None => (w, Ok tt)
    | Some p =>
        match w_disk w !! p ≫= model_pt with
        | None => (w, Raise (AssertionError "pretrained model.pt does not exist"))
        | Some pretrained_dict =>
            match load_state_dict (ddp_prefix cfg) (w_model w)
                    (merged_state_dict (state_dict (ddp_prefix cfg) (w_model w))
                       pretrained_dict) with
            | Ok m' => (add_log (LogPretrainedLoaded p) (set_model m' w), Ok tt)
            | Raise e => (w, Raise e)
            end
        end
    end.
Proof.
  unfold load_pretrained. destruct (pretrained_model cfg) as [p|]; [|done].
  unfold mbind at 1. unfold M_bind at 1. unfold get at 1. cbn beta iota.
  destruct (w_disk w !! p ≫= model_pt) as [pre|]; [|done].
  unfold mbind at 1. unfold M_bind at 1. unfold get at 1. cbn beta iota zeta.
  rewrite pretrained_update. munfold.
  by destruct (load_state_dict _ _ _).
Qed.

Lemma load_resume_unfold cfg w :
  load_resume cfg w
  = if resume_requested cfg (w_disk w) then
      match w_disk w !! resume_dir cfg ≫= model_pt with
      | None => (set_best 1 w, Raise (AssertionError "model.pt does not exist"))
      | Some params =>
          match w_disk w !! resume_dir cfg ≫= optimizer_pt with
          | None =>
              (set_best 1 w, Raise (AssertionError "optimizer.pt does not exist"))
          | Some opt =>
              match load_state_dict "" (w_model w) params with
              | Raise e => (set_best 1 w, Raise e)
              | Ok model =>
                  match w_disk w !! resume_dir cfg ≫= model_state with
                  | None =>
                      (set_opt opt (set_model model (set_best 1 w)),
                       Raise FileNotFoundError)
                  | Some json_data =>
                      match json_get "last_epoch" json_data with
                      | None =>
                          (set_opt opt (set_model model (set_best 1 w)),
                           Raise (KeyError "last_epoch"))
                      | Some v =>
                          (resumed_world (resume_dir cfg) model opt json_data w,
                           Ok (minus_one v))
                      end
                  end
              end
          end
      end
    else (set_best 1 w, Ok (JInt (-1))).
Proof.
  unfold load_resume, resume_dir, resumed_world, resumed_best_error_rate.
  munfold. cbn.
  destruct (resume_requested cfg (w_disk w)); [|done].
  destruct (option_bind _ _ model_pt _) as [params|]; [|done].
  destruct (option_bind _ _ optimizer_pt _) as [opt|]; [|done].
  cbn. destruct (load_state_dict _ _ _) as [model|e]; [|done].
  cbn. destruct (option_bind _ _ model_state _) as [json_data|]; [|done].
  destruct (json_get "last_epoch" json_data) as [v|]; [|done].
  by destruct (json_get "test_cer" json_data), (json_get "test_wer" json_data).
Qed.

Lemma resume_requested_iff cfg (d : gmap path ckpt_dir) :
  resume_requested cfg d = true
  ↔ is_Some (resume_model cfg)
    ∨ (is_Some (d !! last_model_dir cfg ≫= model_pt)
       ∧ is_Some (d !! last_model_dir cfg ≫= optimizer_pt)).
Proof.
  unfold resume_requested, exists_model_pt, exists_optimizer_pt.
  rewrite orb_true_iff, andb_true_iff, !bool_decide_eq_true. done.
Qed.

Lemma load_state_dict_bare_inv (m d m' : gmap string tensor) :
  load_state_dict "" m d = Ok m' → m' = d.
Proof.
  intros Hload. pose proof Hload as Hload'.
  unfold load_state_dict in Hload'. case_decide as Hdom; [|done].
  destruct (load_state_dict_ok "" m d Hdom) as (m'' & Hok & Hm'').
  rewrite state_dict_empty_prefix in Hm''. congruence.
Qed.

(** C7.  Pretrained weights.  When a pretrained path is given and its
    parameter file exists, [load_pretrained] never raises: under every name
    of the current model's state dictionary the pretrained tensor of that
    name is copied if there is one, names the model does not have are
    skipped.  The resume restoration runs after it, on the world it leaves:
    with both paths given the log shows the pretrained line before the
    resume line, and the parameters are those of the resumed checkpoint. *)
Theorem pretrained_then_resume cfg (w : world) (p : path)
    (pretrained_dict : gmap string tensor) :
  pretrained_model cfg = Some p →
  w_disk w !! p ≫= model_pt = Some pretrained_dict →
  ∃ m',
    load_pretrained cfg w
    = (add_log (LogPretrainedLoaded p) (set_model m' w), Ok tt)
    ∧ (∀ k, state_dict (ddp_prefix cfg) m' !! k
            = match state_dict (ddp_prefix cfg) (w_model w) !! k with
              | Some old => Some (default old (pretrained_dict !! k))
              | None => None
              end)
    ∧ restore cfg w
      = load_resume cfg (add_log (LogPretrainedLoaded p) (set_model m' w))
    ∧ ∀ r w2 v,
        resume_model cfg = Some r →
        restore cfg w = (w2, Ok v) →
        w_log w2 = w_log w ++ [LogPretrainedLoaded p; LogResumed r]
        ∧ w_disk w !! r ≫= model_pt = Some (w_model w2).
Proof.
  intros Hp Hpre.
  destruct (load_state_dict_ok (ddp_prefix cfg) (w_model w)
              (merged_state_dict (state_dict (ddp_prefix cfg) (w_model w))
                 pretrained_dict)) as (m' & Hload & Hm').
  { apply merged_state_dict_dom. }
  assert (Hrun : load_pretrained cfg w
            = (add_log (LogPretrainedLoaded p) (set_model m' w), Ok tt)).
  { rewrite load_pretrained_unfold, Hp, Hpre. by rewrite Hload. }
  assert (Hrestore : restore cfg w
            = load_resume cfg (add_log (LogPretrainedLoaded p) (set_model m' w))).
  { unfold restore. unfold mbind, M_bind. by rewrite Hrun. }
  exists m'. split; [done|]. split; [|split; [done|]].
  - intros k. rewrite Hm'. unfold merged_state_dict.
    rewrite map_lookup_imap. by destruct (state_dict _ _ !! k).
  - intros r w2 v Hr. rewrite Hrestore, load_resume_unfold.
    unfold resume_dir. rewrite Hr.
    cbn [w_disk add_log set_model w_model default from_option id].
    destruct (resume_requested _ _) eqn:Hreq.
    + destruct (w_disk w !! r ≫= model_pt) as [params|]; [|done].
      destruct (w_disk w !! r ≫= optimizer_pt) as [opt|]; [|done].
      destruct (load_state_dict "" m' params) as [model|e] eqn:Hl; [|done].
      apply load_state_dict_bare_inv in Hl as ->.
      destruct (w_disk w !! r ≫= model_state) as [json_data|]; [|done].
      destruct (json_get "last_epoch" json_data); [|done].
      intros [= <- _]. cbn. by rewrite <- app_assoc.
    + unfold resume_requested in Hreq. rewrite Hr in Hreq. done.
Qed.

(** C5.  Resume.  [train] enters the resume branch exactly when a resume
    path is given or [last_model] holds both the parameter and the
    optimiser file.  Outside the branch nothing is restored.  Inside it, a
    missing parameter or optimiser file raises an assertion error and
    nothing is restored; with both files, matching parameter names and a
    state record, the parameters and the optimiser state are those of the
    checkpoint and the epoch handed to the scheduler is the record's
    [last_epoch] minus one. *)
Theorem resume_exactly_when_requested cfg (w : world) :
  (resume_requested cfg (w_disk w) = true
   ↔ is_Some (resume_model cfg)
     ∨ (is_Some (w_disk w !! last_model_dir cfg ≫= model_pt)
        ∧ is_Some (w_disk w !! last_model_dir cfg ≫= optimizer_pt)))
  ∧ (resume_requested cfg (w_disk w) = false →
     load_resume cfg w = (set_best 1 w, Ok (JInt (-1))))
  ∧ (resume_requested cfg (w_disk w) = true →
     w_disk w !! resume_dir cfg ≫= model_pt = None
     ∨ w_disk w !! resume_dir cfg ≫= optimizer_pt = None →
     ∃ msg, load_resume cfg w = (set_best 1 w, Raise (AssertionError msg)))
  ∧ (∀ params opt json_data v,
       resume_requested cfg (w_disk w) = true →
       w_disk w !! resume_dir cfg ≫= model_pt = Some params →
       w_disk w !! resume_dir cfg ≫= optimizer_pt = Some opt →
       w_disk w !! resume_dir cfg ≫= model_state = Some json_data →
       json_get "last_epoch" json_data = Some v →
       dom params = dom (w_model w) →
       load_resume cfg w
       = (resumed_world (resume_dir cfg) params opt json_data w,
          Ok (minus_one v))
       ∧ w_model (load_resume cfg w).1 = params
       ∧ w_opt (load_resume cfg w).1 = opt).
Proof.
  split; [apply resume_requested_iff|]. split; [|split].
  - intros Hreq. by rewrite load_resume_unfold, Hreq.
  - intros Hreq Hmissing. rewrite load_resume_unfold, Hreq.
    destruct (w_disk w !! resume_dir cfg ≫= model_pt) as [params|]; [|eauto].
    destruct Hmissing as [?|Hopt]; [done|]. rewrite Hopt. eauto.
  - intros params opt json_data v Hreq Hm Ho Hs Hv Hdom.
    assert (Hrun : load_resume cfg w
              = (resumed_world (resume_dir cfg) params opt json_data w,
                 Ok (minus_one v))).
    { rewrite load_resume_unfold, Hreq, Hm, Ho, Hs, Hv.
      by rewrite load_state_dict_bare. }
    by rewrite Hrun.
Qed.

(** C9.  The best error rate at a resume.  Without a resume
    [best_error_rate] is 1.  After a resume it is the absolute value of the
    record's [test_wer] if the record has one, else of its [test_cer]; for
    a record written by [save_model] under the metric ['cer'] or ['wer']
    that is the error rate of that one write, as printed, whatever earlier
    epochs had reached. *)
Theorem resume_best_error_rate cfg (w : world) :
  (resume_requested cfg (w_disk w) = false →
   (load_resume cfg w).2 = Ok (JInt (-1))
   ∧ w_best (load_resume cfg w).1 = 1%Q)
  ∧ (∀ params opt json_data v,
       resume_requested cfg (w_disk w) = true →
       w_disk w !! resume_dir cfg ≫= model_pt = Some params →
       w_disk w !! resume_dir cfg ≫= optimizer_pt = Some opt →
       w_disk w !! resume_dir cfg ≫= model_state = Some json_data →
       json_get "last_epoch" json_data = Some v →
       dom params = dom (w_model w) →
       (load_resume cfg w).2 = Ok (minus_one v)
       ∧ w_best (load_resume cfg w).1
         = match json_get "test_wer" json_data with
           | Some x => Qabs (jnum x)
           | None =>
               match json_get "test_cer" json_data with
               | Some x => Qabs (jnum x)
               | None => 1%Q
               end
           end)
  ∧ (∀ epoch error_type error_rate test_loss,
       error_type = "cer" ∨ error_type = "wer" →
       resumed_best_error_rate
         (state_record epoch error_type error_rate test_loss)
       = Qabs (fmt_f error_rate)).
Proof.
  split; [|split].
  - intros Hreq. by rewrite load_resume_unfold, Hreq.
  - intros params opt json_data v Hreq Hm Ho Hs Hv Hdom.
    rewrite load_resume_unfold, Hreq, Hm, Ho, Hs, Hv.
    by rewrite load_state_dict_bare.
  - by intros epoch error_type error_rate test_loss [-> | ->].
Qed.

(** ** Computations that keep the trace, the best error rate and the epoch *)

Lemma quiet_ret {A} (a : A) : quiet (mret a : M A).
Proof. by intros w. Qed.

Lemma quiet_raise {A} e : quiet (raise e : M A).
Proof. by intros w. Qed.

Lemma quiet_get {A} (f : world → A) : quiet (get f).
Proof. by intros w. Qed.

Lemma quiet_lift {A} (r : result A) : quiet (lift r).
Proof. by intros w. Qed.

Lemma quiet_bind {A B} (m : M A) (k : A → M B) :
  quiet m → (∀ a, quiet (k a)) → quiet (m ≫= k).
Proof.
  intros Hm Hk w. unfold mbind, M_bind.
  specialize (Hm w). destruct (m w) as [w1 [a|e]]; cbn in Hm; [|done].
  specialize (Hk a w1). destruct Hk as (-> & -> & ->). done.
Qed.

Lemma quiet_when b (m : M unit) : quiet m → quiet (when b m).
Proof. destruct b; [done|]. intros _. apply quiet_ret. Qed.

Lemma quiet_for_each {A} (xs : list A) (body : A → M unit) :
  (∀ x, quiet (body x)) → quiet (for_each xs body).
Proof.
  intros Hb. induction xs as [|x xs IH]; [apply quiet_ret|].
  cbn [for_each]. apply quiet_bind; [apply Hb | intros _; apply IH].
Qed.

Lemma quiet_for_fold {A B} (xs : list A) (body : A → B → M B) :
  (∀ x acc, quiet (body x acc)) → ∀ acc, quiet (for_fold xs body acc).
Proof.
  intros Hb. induction xs as [|x xs IH]; intros acc; [apply quiet_ret|].
  cbn [for_fold]. apply quiet_bind; [apply Hb | intros acc'; apply IH].
Qed.

Lemma quiet_modify (f : world → world) :
  (∀ w, w_trace (f w) = w_trace w ∧ w_best (f w) = w_best w
        ∧ w_epoch (f w) = w_epoch w) →
  quiet (modify f).
Proof. intros Hf w. apply Hf. Qed.

Lemma quiet_info l : quiet (info l).
Proof. by apply quiet_modify. Qed.

Lemma quiet_warning l : quiet (warning l).
Proof. by apply quiet_modify. Qed.

Lemma quiet_tick : quiet tick.
Proof. intros w. unfold tick. by destruct (w_intr w) as [[|n]|]. Qed.

(** Proves [quiet] for a computation built from the operations above. *)
Ltac quiet_tac :=
  repeat lazymatch goal with
    | |- quiet (mbind _ _) => apply quiet_bind
    | |- quiet (mret _) => apply quiet_ret
    | |- quiet (raise _) => apply quiet_raise
    | |- quiet (get _) => apply quiet_get
    | |- quiet (lift _) => apply quiet_lift
    | |- quiet (info _) => apply quiet_info
    | |- quiet (warning _) => apply quiet_warning
    | |- quiet tick => apply quiet_tick
    | |- quiet (when _ _) => apply quiet_when
    | |- quiet (for_each _ _) => apply quiet_for_each
    | |- quiet (for_fold _ _ _) => apply quiet_for_fold
    | |- quiet (modify _) => apply quiet_modify; by intros
    | |- quiet (match ?x with _ => _ end) => destruct x
    | |- ∀ _, _ => intros
    end.

Lemma quiet_select_decoder cfg v : quiet (select_decoder cfg v).
Proof. unfold select_decoder. quiet_tac. Qed.

Lemma quiet_decoder_result cfg outs lens v : quiet (decoder_result cfg outs lens v).
Proof. unfold decoder_result. quiet_tac. apply quiet_select_decoder. Qed.

Lemma quiet_test_batch cfg ib acc : quiet (test_batch cfg ib acc).
Proof. unfold test_batch. quiet_tac. apply quiet_decoder_result. Qed.

Lemma quiet_test cfg : quiet (__test cfg).
Proof. unfold __test. quiet_tac. apply quiet_test_batch. Qed.

Lemma quiet_load_pretrained cfg : quiet (load_pretrained cfg).
Proof. unfold load_pretrained. quiet_tac. Qed.

(** ** Invariants of the training loop

    A property of the world that depends on the trace, the best error rate
    and the epoch only, and that survives an optimiser step, a numbered
    write, and a [best_model] write of an error rate that is at most the
    best one, is kept by the whole loop and by the interrupt handler. *)

Section Invariant.
Variable I : world → Prop.
Hypothesis I_quiet : ∀ w w',
  I w → w_trace w' = w_trace w → w_best w' = w_best w →
  w_epoch w' = w_epoch w → I w'.
Hypothesis I_epoch : ∀ e w w',
  I w → w_trace w' = w_trace w → w_best w' = w_best w →
  w_epoch w' = Some e → I w'.
Hypothesis I_step : ∀ e i w w',
  I w → w_trace w' = w_trace w ++ [EvOptimizerStep e i] →
  w_best w' = w_best w → w_epoch w' = w_epoch w → I w'.
Hypothesis I_save : ∀ e t c l w w',
  I w → w_trace w' = w_trace w ++ [EvSaveModel e t c l false] →
  w_best w' = w_best w → w_epoch w' = w_epoch w → I w'.
Hypothesis I_best : ∀ e t c l w w',
  I w → Qle_bool c (w_best w) = true →
  w_trace w' = w_trace w ++ [EvSaveModel e t c l true] →
  w_best w' = c → w_epoch w' = w_epoch w → I w'.

Lemma inv_quiet {A} (m : M A) : quiet m → inv I m.
Proof. intros Hq w Hw. destruct (Hq w) as (? & ? & ?). by eapply I_quiet. Qed.

Lemma inv_bind {A B} (m : M A) (k : A → M B) :
  inv I m → (∀ a, inv I (k a)) → inv I (m ≫= k).
Proof.
  intros Hm Hk w Hw. unfold mbind, M_bind.
  specialize (Hm w Hw). destruct (m w) as [w1 [a|e]]; cbn in Hm; [|done].
  by apply Hk.
Qed.

Lemma inv_when b (m : M unit) : inv I m → inv I (when b m).
Proof. destruct b; [done|]. by intros _ w Hw. Qed.

Lemma inv_for_each {A} (xs : list A) (body : A → M unit) :
  (∀ x, inv I (body x)) → inv I (for_each xs body).
Proof.
  intros Hb. induction xs as [|x xs IH]; [by intros w Hw|].
  cbn [for_each]. apply inv_bind; [apply Hb | intros _; apply IH].
Qed.

Lemma inv_try (body handler : M unit) :
  inv I body → inv I handler → inv I (try_except_interrupt body handler).
Proof.
  intros Hb Hh w Hw. unfold try_except_interrupt.
  specialize (Hb w Hw). destruct (body w) as [w1 [[]|e]]; cbn in Hb; [done|].
  destruct e; try done. by apply Hh.
Qed.

Lemma inv_set_epoch e : inv I (modify (set_epoch (Some e))).
Proof. intros w Hw. by eapply I_epoch. Qed.

Lemma inv_step e i : inv I (observe (EvOptimizerStep e i)).
Proof. intros w Hw. by eapply I_step. Qed.

Lemma inv_save_model_last root variant e m o t c l :
  inv I (save_model root variant e m o t c l false).
Proof. intros w Hw. by eapply I_save. Qed.

Lemma inv_save_if_best cfg e cl : inv I (save_if_best cfg e cl).
Proof.
  intros w Hw. unfold save_if_best. munfold. cbn.
  destruct (Qle_bool cl.1 (w_best w)) eqn:Hle; [|done].
  by eapply I_best.
Qed.

(** Proves [inv I] for a computation built from the operations above. *)
Ltac inv_tac :=
  repeat lazymatch goal with
    | |- inv _ (mbind _ _) => apply inv_bind
    | |- inv _ (modify (set_epoch (Some _))) => apply inv_set_epoch
    | |- inv _ (observe (EvOptimizerStep _ _)) => apply inv_step
    | |- inv _ (save_model _ _ _ _ _ _ _ _ false) => apply inv_save_model_last
    | |- inv _ (save_if_best _ _ _) => apply inv_save_if_best
    | |- inv _ (when _ _) => apply inv_when
    | |- inv _ (for_each _ _) => apply inv_for_each
    | |- inv _ (__test _) => apply inv_quiet, quiet_test
    | |- inv _ tick => apply inv_quiet, quiet_tick
    | |- inv _ (info _) => apply inv_quiet, quiet_info
    | |- inv _ (get _) => apply inv_quiet, quiet_get
    | |- inv _ (mret _) => apply inv_quiet, quiet_ret
    | |- inv _ (raise _) => apply inv_quiet, quiet_raise
    | |- inv _ (modify _) => apply inv_quiet, quiet_modify; by intros
    | |- inv _ (match ?x with _ => _ end) => destruct x
    | |- ∀ _, _ => intros
    end.

Lemma inv_train_batch cfg e ib : inv I (train_batch cfg e ib).
Proof. unfold train_batch. inv_tac. Qed.

Lemma inv_end_of_epoch cfg e : inv I (end_of_epoch cfg e).
Proof. unfold end_of_epoch. inv_tac. Qed.

Lemma inv_epoch_body cfg e : inv I (epoch_body cfg e).
Proof.
  unfold epoch_body. inv_tac.
  - apply inv_train_batch.
  - apply inv_end_of_epoch.
Qed.

Lemma inv_train_epoch cfg e : inv I (train_epoch cfg e).
Proof. unfold train_epoch. inv_tac. apply inv_epoch_body. Qed.

Lemma inv_train_loop cfg last_epoch : inv I (train_loop cfg last_epoch).
Proof. unfold train_loop. apply inv_for_each. apply inv_train_epoch. Qed.

Lemma inv_on_keyboard_interrupt cfg : inv I (on_keyboard_interrupt cfg).
Proof. unfold on_keyboard_interrupt. inv_tac. Qed.

Lemma inv_guarded_loop cfg last_epoch : inv I (guarded_loop cfg last_epoch).
Proof.
  apply inv_try; [apply inv_train_loop | apply inv_on_keyboard_interrupt].
Qed.

End Invariant.

(** ** The best model *)

Lemma save_model_run root variant e m o t c l b w :
  save_model root variant e m o t c l b w
  = (add_log (LogSaved (saved_path root variant e b))
       (set_disk (save_model_disk root variant e m o t c l b)
          (add_event (EvSaveModel e t c l b) w)),
     Ok tt).
Proof. done. Qed.

Lemma fmt_f_mono x y : (x <= y)%Q → (fmt_f x <= fmt_f y)%Q.
Proof.
  intros Hxy. unfold fmt_f, Qle. cbn [Qnum Qden].
  apply Z.mul_le_mono_nonneg_r; [done|].
  assert (Hle : (x * 1000000 <= y * 1000000)%Q) by lra.
  pose proof (Qfloor_resp_le _ _ Hle) as Hfloor.
  set (x' := (x * 1000000)%Q) in *. set (y' := (y * 1000000)%Q) in *.
  destruct (decide (Qfloor x' = Qfloor y')) as [Heq|Hne].
  - rewrite <- Heq.
    assert (Hr : (x' - inject_Z (Qfloor x') <= y' - inject_Z (Qfloor x'))%Q)
      by lra.
    destruct (Qcompare_spec (x' - inject_Z (Qfloor x')) (1 # 2)) as [Hx|Hx|Hx];
      destruct (Qcompare_spec (y' - inject_Z (Qfloor x')) (1 # 2)) as [Hy|Hy|Hy];
      try lra; repeat case_match; lia.
  - repeat case_match; lia.
Qed.

Lemma non_increasing_snoc xs c :
  non_increasing xs → Forall (λ x, (c <= x)%Q) xs → non_increasing (xs ++ [c]).
Proof.
  intros Hs Hall i j x y Hij Hi Hj.
  apply lookup_snoc_Some in Hi as [[Hi Hx]|[-> <-]];
    apply lookup_snoc_Some in Hj as [[Hj Hy]|[-> <-]].
  - exact (Hs i j x y Hij Hx Hy).
  - exact (proj1 (Forall_lookup _ _) Hall i x Hx).
  - lia.
  - apply Qle_refl.
Qed.

Lemma non_increasing_fmap xs :
  non_increasing xs → non_increasing (fmt_f <$> xs).
Proof.
  intros Hs i j x y Hij Hi Hj.
  apply list_lookup_fmap_Some in Hi as (x0 & -> & Hi).
  apply list_lookup_fmap_Some in Hj as (y0 & -> & Hj).
  apply fmt_f_mono. by eapply Hs.
Qed.

Lemma best_rates_snoc t ev :
  best_rates (t ++ [ev])
  = best_rates t ++ match ev with
                    | EvSaveModel _ _ c _ true => [c]
                    | _ => []
                    end.
Proof.
  unfold best_rates. rewrite omap_app. f_equal.
  by destruct ev as [|? ? ? ? []].
Qed.

Lemma best_so_far_quiet w w' :
  best_so_far w → w_trace w' = w_trace w → w_best w' = w_best w →
  best_so_far w'.
Proof. unfold best_so_far. by intros ? -> ->. Qed.

Lemma best_so_far_best e t c l w w' :
  best_so_far w → Qle_bool c (w_best w) = true →
  w_trace w' = w_trace w ++ [EvSaveModel e t c l true] →
  w_best w' = c → best_so_far w'.
Proof.
  unfold best_so_far. intros [Hs Hall] Hle%Qle_bool_iff -> ->.
  rewrite best_rates_snoc.
  assert (Hc : Forall (λ x, (c <= x)%Q) (best_rates (w_trace w))).
  { eapply Forall_impl; [done|]. cbn. intros x Hx. by eapply Qle_trans. }
  split.
  - by apply non_increasing_snoc.
  - apply Forall_app. split; [done|]. apply Forall_singleton, Qle_refl.
Qed.

Lemma best_so_far_guarded_loop cfg last_epoch :
  inv best_so_far (guarded_loop cfg last_epoch).
Proof.
  apply inv_guarded_loop.
  - intros w w' Hw Ht Hb _. by eapply best_so_far_quiet.
  - intros e w w' Hw Ht Hb _. by eapply best_so_far_quiet.
  - intros e i w w' [Hs Hall] Ht Hb _. unfold best_so_far.
    by rewrite Ht, Hb, best_rates_snoc, app_nil_r.
  - intros e t c l w w' [Hs Hall] Ht Hb _. unfold best_so_far.
    by rewrite Ht, Hb, best_rates_snoc, app_nil_r.
  - intros e t c l w w' Hw Hle Ht Hb _. by eapply best_so_far_best.
Qed.

Lemma restore_trace cfg w : w_trace (restore cfg w).1 = w_trace w.
Proof.
  unfold restore. unfold mbind, M_bind.
  pose proof (quiet_load_pretrained cfg w) as (Ht & _ & _).
  destruct (load_pretrained cfg w) as [w1 [[]|e]]; cbn in Ht; [|done].
  rewrite load_resume_unfold, <- Ht.
  by repeat case_match.
Qed.

Lemma train_unfold cfg w :
  train cfg w
  = let w0 := set_opt (fresh_optimizer cfg)
                (set_model (fresh_model cfg) (set_cl None (set_epoch None w))) in
    match restore cfg w0 with
    | (w1, Ok (JInt last_epoch)) =>
        guarded_loop cfg last_epoch (set_sched last_epoch w1)
    | (w1, Ok (JFloat _)) => (w1, Raise TypeError)
    | (w1, Raise e) => (w1, Raise e)
    end.
Proof.
  unfold train. munfold. cbn.
  destruct (restore cfg _) as [w1 [[n|x]|e]]; done.
Qed.

(** C3.  The best model.  After an evaluation with error rate [c],
    [best_model] is written if and only if [c] is at most
    [best_error_rate]: the write records [c] and makes it the new
    [best_error_rate], and otherwise nothing happens.  Hence the metrics
    that the [best_model] writes of one run of [train] record never
    increase. *)
Theorem best_model_written_iff_not_worse cfg (epoch : Z) (cl : Q * Q)
    (w : world) :
  ((cl.1 <= w_best w)%Q →
   (save_if_best cfg epoch cl w).2 = Ok tt
   ∧ w_trace (save_if_best cfg epoch cl w).1
     = w_trace w ++ [EvSaveModel epoch (metrics_type cfg) cl.1 cl.2 true]
   ∧ w_best (save_if_best cfg epoch cl w).1 = cl.1
   ∧ w_disk (save_if_best cfg epoch cl w).1
       !! Ckpt (save_model_path cfg) (use_model cfg) BestModel
       ≫= model_state
     = Some (state_record epoch (metrics_type cfg) cl.1 cl.2))
  ∧ (¬ (cl.1 <= w_best w)%Q → save_if_best cfg epoch cl w = (w, Ok tt))
  ∧ (best_rates (w_trace w) = [] →
     non_increasing (best_model_metrics (w_trace (train cfg w).1))).
Proof.
  split; [|split].
  - intros Hle%Qle_bool_iff. unfold save_if_best. munfold. cbn.
    rewrite Hle. cbn. repeat split.
    rewrite save_model_run. cbn.
    unfold save_model_disk, makedirs_and_write. cbn.
    by rewrite lookup_insert_eq.
  - intros Hnle. unfold save_if_best. munfold. cbn.
    destruct (Qle_bool cl.1 (w_best w)) eqn:Hle; [|done].
    by apply Qle_bool_iff in Hle.
  - intros Hnone. unfold best_model_metrics. apply non_increasing_fmap.
    rewrite train_unfold. cbn zeta.
    set (w0 := set_opt _ _).
    pose proof (restore_trace cfg w0) as Ht.
    assert (Hstart : ∀ w1, w_trace w1 = w_trace w → best_so_far w1).
    { intros w1 Hw1. unfold best_so_far. rewrite Hw1, Hnone.
      split; [by intros i j x y _ [=]|done]. }
    destruct (restore cfg w0) as [w1 [[last_epoch|x]|e]]; cbn in Ht.
    + apply (best_so_far_guarded_loop cfg last_epoch). by apply Hstart.
    + by apply (Hstart w1).
    + by apply (Hstart w1).
Qed.

(** ** The interrupt handler *)

Lemma epoch_bound_epoch_body cfg e :
  inv (λ w, is_Some (w_epoch w)) (epoch_body cfg e).
Proof.
  apply inv_epoch_body.
  - by intros w w' Hw _ _ ->.
  - intros e' w w' _ _ _ ->. eauto.
  - by intros e' i w w' Hw _ _ ->.
  - by intros e' t c l w w' Hw _ _ ->.
  - by intros e' t c l w w' Hw _ _ _ ->.
Qed.

Lemma epoch_bound_train_epoch cfg e w :
  is_Some (w_epoch (train_epoch cfg e w).1).
Proof.
  unfold train_epoch. unfold mbind, M_bind, modify. cbn beta iota.
  apply epoch_bound_epoch_body. cbn. eauto.
Qed.

Lemma epoch_bound_train_epochs cfg : ∀ es w,
  is_Some (w_epoch w) → is_Some (w_epoch (for_each es (train_epoch cfg) w).1).
Proof.
  induction es as [|e es IH]; intros w Hw; [done|].
  cbn [for_each]. unfold mbind, M_bind.
  pose proof (epoch_bound_train_epoch cfg e w) as He.
  destruct (train_epoch cfg e w) as [w1 [[]|err]]; cbn in He; [|done].
  by apply IH.
Qed.

Lemma train_loop_raise_epoch_bound cfg last_epoch w w1 e :
  train_loop cfg last_epoch w = (w1, Raise e) → is_Some (w_epoch w1).
Proof.
  unfold train_loop. destruct (py_range _ _) as [|e0 es]; [done|].
  cbn [for_each]. unfold mbind, M_bind.
  pose proof (epoch_bound_train_epoch cfg e0 w) as He.
  destruct (train_epoch cfg e0 w) as [w2 [[]|err]]; cbn in He.
  - intros Hrest.
    pose proof (epoch_bound_train_epochs cfg es w2 He) as Hes.
    by rewrite Hrest in Hes.
  - by intros [= <- _].
Qed.

(** C2.  Interrupt.  When the training loop is stopped by an interrupt,
    [epoch] is bound and the [try] statement returns normally.  On rank 0
    the handler calls [save_model] once, as a numbered write of the
    current epoch, with the last evaluated error rate and loss, or with 1
    and 1000 when no evaluation has bound them; on the other ranks nothing
    is written and the world is left as it was at the interrupt. *)
Theorem interrupt_saves_once cfg (last_epoch : Z) (w w1 : world) :
  train_loop cfg last_epoch w = (w1, Raise KeyboardInterrupt) →
  ∃ epoch,
    w_epoch w1 = Some epoch
    ∧ (local_rank cfg = 0 →
       let cl := default (1, 1000)%Q (w_cl w1) in
       (guarded_loop cfg last_epoch w).2 = Ok tt
       ∧ w_trace (guarded_loop cfg last_epoch w).1
         = w_trace w1 ++ [EvSaveModel epoch "cer" cl.1 cl.2 false]
       ∧ w_disk (guarded_loop cfg last_epoch w).1
         = save_model_disk (save_model_path cfg) (use_model cfg) epoch
             (w_model w1) (w_opt w1) "cer" cl.1 cl.2 false (w_disk w1))
    ∧ (local_rank cfg ≠ 0 → guarded_loop cfg last_epoch w = (w1, Ok tt)).
Proof.
  intros Hloop.
  destruct (train_loop_raise_epoch_bound _ _ _ _ _ Hloop) as [epoch Hepoch].
  exists epoch. split; [done|].
  unfold guarded_loop, try_except_interrupt. rewrite Hloop.
  unfold on_keyboard_interrupt. split.
  - intros ->. cbn [Nat.eqb when]. munfold. unfold save_model. munfold.
    destruct (w_cl w1) as [cl|] eqn:Hcl; cbn; rewrite ?Hcl, Hepoch; cbn; done.
  - intros Hrank. apply Nat.eqb_neq in Hrank. by rewrite Hrank.
Qed.

(** ** The optimiser steps of a run *)

Lemma emits_conseq {A} (m : M A) e e' : emits m e → e = e' → emits m e'.
Proof. by intros ? <-. Qed.

Lemma emits_stepless {A} (m : M A) : stepless m → emits m [].
Proof.
  intros Hs w. exists []. rewrite app_nil_r. split; [apply Hs|].
  split; [done|]. done.
Qed.

Lemma stepless_quiet {A} (m : M A) : quiet m → stepless m.
Proof. intros Hq w. destruct (Hq w) as (-> & _). done. Qed.

Lemma emits_quiet {A} (m : M A) : quiet m → emits m [].
Proof. intros Hq. by apply emits_stepless, stepless_quiet. Qed.

Lemma emits_bind {A B} (m : M A) (k : A → M B) e1 e2 :
  emits m e1 → (∀ a, emits (k a) e2) → emits (m ≫= k) (e1 ++ e2).
Proof.
  intros Hm Hk w. unfold mbind, M_bind.
  destruct (Hm w) as (ys1 & Hsteps1 & Hpre1 & Hall1).
  destruct (m w) as [w1 [a|err]]; cbn in *.
  - rewrite (Hall1 a eq_refl) in *.
    destruct (Hk a w1) as (ys2 & Hsteps2 & Hpre2 & Hall2).
    exists (e1 ++ ys2). rewrite Hsteps2, Hsteps1, <- app_assoc.
    split; [done|]. split; [by apply prefix_app|].
    intros b Hb. by rewrite (Hall2 b Hb).
  - exists ys1. split; [done|]. split; [by apply prefix_app_r|]. done.
Qed.

Lemma emits_when b (m : M unit) : emits m [] → emits (when b m) [].
Proof. destruct b; [done|]. intros _. by apply emits_quiet, quiet_ret. Qed.

Lemma emits_for_each {A} (xs : list A) (body : A → M unit)
    (exp : A → list (Z * nat)) :
  (∀ x, emits (body x) (exp x)) → emits (for_each xs body) (xs ≫= exp).
Proof.
  intros Hb. induction xs as [|x xs IH]; [by apply emits_quiet, quiet_ret|].
  cbn [for_each]. change ((x :: xs) ≫= exp) with (exp x ++ (xs ≫= exp)).
  apply emits_bind; [apply Hb | intros _; apply IH].
Qed.

Lemma steps_of_snoc t ev :
  steps_of (t ++ [ev])
  = steps_of t ++ match ev with
                  | EvOptimizerStep e i => [(e, i)]
                  | EvSaveModel _ _ _ _ _ => []
                  end.
Proof. unfold steps_of. rewrite omap_app. f_equal. by destruct ev. Qed.

Lemma emits_step e i : emits (observe (EvOptimizerStep e i)) [(e, i)].
Proof.
  intros w. exists [(e, i)]. cbn [observe modify fst snd add_event w_trace].
  rewrite steps_of_snoc. split; [done|]. split; done.
Qed.

Lemma stepless_save_model root variant e m o t c l b :
  stepless (save_model root variant e m o t c l b).
Proof.
  intros w. rewrite save_model_run.
  cbn [fst w_trace add_log set_disk add_event].
  by rewrite steps_of_snoc, app_nil_r.
Qed.

Lemma emits_save_model root variant e m o t c l b :
  emits (save_model root variant e m o t c l b) [].
Proof. apply emits_stepless, stepless_save_model. Qed.

Lemma emits_save_if_best cfg e cl : emits (save_if_best cfg e cl) [].
Proof.
  apply emits_stepless. intros w. unfold save_if_best. munfold.
  cbn [fst snd].
  destruct (Qle_bool _ _); [|done].
  rewrite save_model_run. cbn [fst w_trace add_log set_disk add_event set_best].
  by rewrite steps_of_snoc, app_nil_r.
Qed.

Lemma emits_train_batch cfg e (ib : nat * batch) :
  emits (train_batch cfg e ib) [(e, ib.1)].
Proof.
  unfold train_batch.
  eapply emits_conseq.
  { eapply emits_bind; [apply emits_quiet, quiet_tick|]. intros _.
    eapply emits_bind; [apply emits_quiet, quiet_get|]. intros model.
    eapply emits_bind; [apply emits_quiet, quiet_get|]. intros optimizer.
    eapply emits_bind; [apply emits_quiet; by apply quiet_modify|]. intros _.
    eapply emits_bind; [apply emits_quiet; by apply quiet_modify|]. intros _.
    eapply emits_bind; [apply emits_step|]. intros _.
    eapply emits_bind; [apply emits_quiet, quiet_tick|]. intros _.
    eapply emits_bind; [apply emits_when, emits_quiet, quiet_info|]. intros _.
    eapply emits_bind; [apply emits_quiet, quiet_tick|]. intros _.
    apply emits_when, emits_save_model. }
  done.
Qed.

Lemma emits_end_of_epoch cfg e : emits (end_of_epoch cfg e) [].
Proof.
  unfold end_of_epoch.
  eapply emits_conseq.
  { eapply emits_bind; [apply emits_quiet, quiet_tick|]. intros _.
    eapply emits_bind; [apply emits_quiet, quiet_info|]. intros _.
    eapply emits_bind; [apply emits_quiet, quiet_test|]. intros cl.
    eapply emits_bind; [apply emits_quiet; by apply quiet_modify|]. intros _.
    eapply emits_bind; [apply emits_quiet, quiet_info|]. intros _.
    eapply emits_bind; [apply emits_quiet, quiet_info|]. intros _.
    eapply emits_bind; [apply emits_quiet, quiet_tick|]. intros _.
    eapply emits_bind; [apply emits_save_if_best|]. intros _.
    eapply emits_bind; [apply emits_quiet, quiet_tick|]. intros _.
    eapply emits_bind; [apply emits_quiet, quiet_get|]. intros model.
    eapply emits_bind; [apply emits_quiet, quiet_get|]. intros optimizer.
    apply emits_save_model. }
  done.
Qed.

Lemma enumerate_steps {A} (e : Z) (xs : list A) : ∀ k,
  zip (seq k (length xs)) xs ≫= (λ ib, [(e, ib.1)])
  = (λ i, (e, i)) <$> seq k (length xs).
Proof.
  induction xs as [|x xs IH]; intros k; [done|].
  cbn [length seq zip zip_with fmap list_fmap].
  change (((k, x) :: zip (seq (S k) (length xs)) xs) ≫= (λ ib, [(e, ib.1)]))
    with ((e, k) :: (zip (seq (S k) (length xs)) xs ≫= (λ ib, [(e, ib.1)]))).
  by rewrite IH.
Qed.

Lemma emits_train_epoch cfg e :
  emits (train_epoch cfg e)
    ((λ i, ((e + 1)%Z, i)) <$> seq 0 (length (train_loader cfg))).
Proof.
  unfold train_epoch, epoch_body.
  eapply emits_conseq.
  { eapply emits_bind.
    { apply emits_stepless. by intros w. }
    intros _.
    eapply emits_bind; [apply emits_quiet, quiet_tick|]. intros _.
    eapply emits_bind.
    { apply emits_stepless. by intros w. }
    intros _.
    eapply emits_bind.
    { apply emits_for_each. intros ib. apply emits_train_batch. }
    intros _.
    eapply emits_bind; [apply emits_when, emits_end_of_epoch|]. intros _.
    eapply emits_bind; [apply emits_quiet, quiet_tick|]. intros _.
    eapply emits_bind; [apply emits_quiet, quiet_get|]. intros s.
    apply emits_quiet. by apply quiet_modify. }
  cbn [app]. rewrite app_nil_r. apply enumerate_steps.
Qed.

Lemma emits_train_loop cfg last_epoch :
  emits (train_loop cfg last_epoch)
    (steps_of_epochs cfg (py_range last_epoch (num_epoch cfg))).
Proof.
  unfold train_loop, steps_of_epochs.
  apply emits_for_each. intros e. apply emits_train_epoch.
Qed.

Lemma stepless_on_keyboard_interrupt cfg : stepless (on_keyboard_interrupt cfg).
Proof.
  intros w. unfold on_keyboard_interrupt. munfold.
  destruct (local_rank cfg =? 0); [|done].
  destruct (w_cl w) as [cl|] eqn:Hcl; cbn; rewrite ?Hcl;
    destruct (w_epoch w); cbn; try done;
    by rewrite stepless_save_model.
Qed.

(** ** Runs without a pending interrupt *)

Lemma calm_ret {A} (a : A) : calm (mret a : M A).
Proof. by intros w Hw. Qed.

Lemma calm_raise {A} e : e ≠ KeyboardInterrupt → calm (raise e : M A).
Proof. intros He w Hw. split; [done|]. cbn. congruence. Qed.

Lemma calm_get {A} (f : world → A) : calm (get f).
Proof. by intros w Hw. Qed.

Lemma calm_lift {A} (r : result A) : r ≠ Raise KeyboardInterrupt → calm (lift r).
Proof. by intros Hr w Hw. Qed.

Lemma calm_bind {A B} (m : M A) (k : A → M B) :
  calm m → (∀ a, calm (k a)) → calm (m ≫= k).
Proof.
  intros Hm Hk w Hw. unfold mbind, M_bind.
  destruct (Hm w Hw) as [Hi Hr]. destruct (m w) as [w1 [a|e]]; cbn in *.
  - by apply Hk.
  - split; [done|]. congruence.
Qed.

Lemma calm_when b (m : M unit) : calm m → calm (when b m).
Proof. destruct b; [done|]. intros _. apply calm_ret. Qed.

Lemma calm_for_each {A} (xs : list A) (body : A → M unit) :
  (∀ x, calm (body x)) → calm (for_each xs body).
Proof.
  intros Hb. induction xs as [|x xs IH]; [apply calm_ret|].
  cbn [for_each]. apply calm_bind; [apply Hb | intros _; apply IH].
Qed.

Lemma calm_for_fold {A B} (xs : list A) (body : A → B → M B) :
  (∀ x acc, calm (body x acc)) → ∀ acc, calm (for_fold xs body acc).
Proof.
  intros Hb. induction xs as [|x xs IH]; intros acc; [apply calm_ret|].
  cbn [for_fold]. apply calm_bind; [apply Hb | intros acc'; apply IH].
Qed.

Lemma calm_modify (f : world → world) :
  (∀ w, w_intr (f w) = w_intr w) → calm (modify f).
Proof. intros Hf w Hw. cbn. by rewrite Hf. Qed.

Lemma calm_tick : calm tick.
Proof. intros w Hw. unfold tick. by rewrite Hw. Qed.

Lemma mean_not_interrupt xs : mean xs ≠ Raise KeyboardInterrupt.
Proof. by destruct xs. Qed.

Lemma trim_from_not_interrupt (outs : list (list frame)) : ∀ lens i,
  trim_from i outs lens ≠ Raise KeyboardInterrupt.
Proof.
  induction lens as [|l ls IH]; intros i; [done|].
  cbn [trim_from]. destruct (outs !! i); [|done].
  specialize (IH (S i)). by destruct (trim_from (S i) outs ls).
Qed.

Lemma decode_with_not_interrupt dec bsd (outs : list (list frame)) lens v :
  decode_with dec bsd outs lens v ≠ Raise KeyboardInterrupt.
Proof.
  unfold decode_with.
  pose proof (trim_from_not_interrupt outs lens 0) as Ht.
  destruct (trim_from 0 outs lens) as [o|e]; [by repeat case_match|].
  intros [= ->]. by apply Ht.
Qed.

(** Proves [calm] for a computation built from the operations above. *)
Ltac calm_tac :=
  repeat lazymatch goal with
    | |- calm (mbind _ _) => apply calm_bind
    | |- calm (mret _) => apply calm_ret
    | |- calm (raise _) => apply calm_raise; done
    | |- calm (get _) => apply calm_get
    | |- calm (lift (mean _)) => apply calm_lift, mean_not_interrupt
    | |- calm (lift (decode_with _ _ _ _ _)) =>
        apply calm_lift, decode_with_not_interrupt
    | |- calm (info _) => apply calm_modify; by intros
    | |- calm (warning _) => apply calm_modify; by intros
    | |- calm (observe _) => apply calm_modify; by intros
    | |- calm tick => apply calm_tick
    | |- calm (when _ _) => apply calm_when
    | |- calm (for_each _ _) => apply calm_for_each
    | |- calm (for_fold _ _ _) => apply calm_for_fold
    | |- calm (modify _) => apply calm_modify; by intros
    | |- calm (match ?x with _ => _ end) => destruct x
    | |- ∀ _, _ => intros
    end.

Lemma calm_select_decoder cfg v : calm (select_decoder cfg v).
Proof. unfold select_decoder. calm_tac. Qed.

Lemma calm_decoder_result cfg outs lens v : calm (decoder_result cfg outs lens v).
Proof. unfold decoder_result. calm_tac. apply calm_select_decoder. Qed.

Lemma calm_test_batch cfg ib acc : calm (test_batch cfg ib acc).
Proof. unfold test_batch. calm_tac. apply calm_decoder_result. Qed.

Lemma calm_test cfg : calm (__test cfg).
Proof. unfold __test. calm_tac. apply calm_test_batch. Qed.

Lemma calm_save_model root variant e m o t c l b :
  calm (save_model root variant e m o t c l b).
Proof. unfold save_model. calm_tac. Qed.

Lemma calm_save_if_best cfg e cl : calm (save_if_best cfg e cl).
Proof. unfold save_if_best. calm_tac. apply calm_save_model. Qed.

Lemma calm_train_batch cfg e ib : calm (train_batch cfg e ib).
Proof. unfold train_batch. calm_tac. apply calm_save_model. Qed.

Lemma calm_end_of_epoch cfg e : calm (end_of_epoch cfg e).
Proof.
  unfold end_of_epoch. calm_tac.
  - apply calm_test.
  - apply calm_save_if_best.
  - apply calm_save_model.
Qed.

Lemma calm_train_epoch cfg e : calm (train_epoch cfg e).
Proof.
  unfold train_epoch, epoch_body. calm_tac.
  - apply calm_train_batch.
  - apply calm_end_of_epoch.
Qed.

Lemma calm_train_loop cfg last_epoch : calm (train_loop cfg last_epoch).
Proof. unfold train_loop. apply calm_for_each. apply calm_train_epoch. Qed.

Lemma guarded_loop_steps cfg last_epoch w :
  ∃ ys,
    steps_of (w_trace (guarded_loop cfg last_epoch w).1)
    = steps_of (w_trace w) ++ ys
    ∧ ys `prefix_of` steps_of_epochs cfg (py_range last_epoch (num_epoch cfg))
    ∧ (w_intr w = None →
       (guarded_loop cfg last_epoch w).2 = Ok tt →
       ys = steps_of_epochs cfg (py_range last_epoch (num_epoch cfg))).
Proof.
  destruct (emits_train_loop cfg last_epoch w) as (ys & Hsteps & Hpre & Hall).
  exists ys. unfold guarded_loop, try_except_interrupt.
  destruct (train_loop cfg last_epoch w) as [w1 [[]|e]] eqn:Hloop; cbn in *.
  - split; [done|]. split; [done|]. intros _ _. by apply (Hall tt).
  - assert (Hother : e ≠ KeyboardInterrupt →
        steps_of (w_trace w1) = steps_of (w_trace w) ++ ys
        ∧ ys `prefix_of` steps_of_epochs cfg (py_range last_epoch (num_epoch cfg))
        ∧ (w_intr w = None → Raise e = Ok () →
           ys = steps_of_epochs cfg (py_range last_epoch (num_epoch cfg))))
      by (intros _; split; [done|]; split; done).
    destruct e; try (by apply Hother).
    rewrite stepless_on_keyboard_interrupt.
    split; [done|]. split; [done|]. intros Hw _.
    destruct (calm_train_loop cfg last_epoch w Hw) as [_ Hne].
    by rewrite Hloop in Hne.
Qed.

(** ** The first optimiser step of a run *)

Lemma emits_extends {A} (m : M A) e : emits m e → extends m.
Proof. intros Hm w. destruct (Hm w) as (ys & Hys & _). eauto. Qed.

Lemma extends_bind {A B} (m : M A) (k : A → M B) :
  extends m → (∀ a, extends (k a)) → extends (m ≫= k).
Proof.
  intros Hm Hk w. unfold mbind, M_bind.
  destruct (Hm w) as (ys & Hys). destruct (m w) as [w1 [a|e]]; cbn in *.
  - destruct (Hk a w1) as (zs & Hzs). exists (ys ++ zs).
    by rewrite Hzs, Hys, <- app_assoc.
  - eauto.
Qed.

Lemma extends_for_each {A} (xs : list A) (body : A → M unit) :
  (∀ x, extends (body x)) → extends (for_each xs body).
Proof.
  intros Hb. induction xs as [|x xs IH].
  - intros w. exists []. by rewrite app_nil_r.
  - cbn [for_each]. apply extends_bind; [apply Hb | intros _; apply IH].
Qed.

Lemma passes_tick : passes tick.
Proof. intros w Hw. unfold tick. rewrite Hw. by exists tt. Qed.

Lemma passes_get {A} (f : world → A) : passes (get f).
Proof. intros w Hw. by exists (f w). Qed.

Lemma passes_modify (f : world → world) :
  (∀ w, w_intr (f w) = w_intr w ∧ w_trace (f w) = w_trace w) →
  passes (modify f).
Proof.
  intros Hf w Hw. exists tt. destruct (Hf w) as [Hi Ht]. cbn.
  by rewrite Hi, Ht.
Qed.

Lemma starts_bind_l {A B} x (m : M A) (k : A → M B) :
  starts_with x m → (∀ a, extends (k a)) → starts_with x (m ≫= k).
Proof.
  intros Hm Hk w Hw. unfold mbind, M_bind.
  destruct (Hm w Hw) as (zs & Hzs). destruct (m w) as [w1 [a|e]]; cbn in *.
  - destruct (Hk a w1) as (ys & Hys). exists (zs ++ ys).
    by rewrite Hys, Hzs, <- app_assoc.
  - eauto.
Qed.

Lemma starts_bind_r {A B} x (m : M A) (k : A → M B) :
  passes m → (∀ a, starts_with x (k a)) → starts_with x (m ≫= k).
Proof.
  intros Hm Hk w Hw. unfold mbind, M_bind.
  destruct (Hm w Hw) as (a & Hr & Hi & Ht).
  destruct (m w) as [w1 r]; cbn in *. subst r. rewrite <- Ht.
  by apply Hk.
Qed.

Lemma starts_step e i : starts_with (e, i) (observe (EvOptimizerStep e i)).
Proof.
  intros w _. exists []. cbn [observe modify fst add_event w_trace].
  by rewrite steps_of_snoc.
Qed.

Lemma starts_for_each {A} x (y : A) (ys : list A) (body : A → M unit) :
  starts_with x (body y) → (∀ z, extends (body z)) →
  starts_with x (for_each (y :: ys) body).
Proof.
  intros Hy Hb. cbn [for_each]. apply starts_bind_l; [done|]. intros _.
  by apply extends_for_each.
Qed.

Lemma starts_try x (body handler : M unit) :
  starts_with x body → stepless handler →
  starts_with x (try_except_interrupt body handler).
Proof.
  intros Hb Hh w Hw. unfold try_except_interrupt.
  destruct (Hb w Hw) as (zs & Hzs). exists zs.
  destruct (body w) as [w1 [[]|e]]; cbn in *; [done|].
  destruct e; try done. by rewrite Hh.
Qed.

Lemma starts_train_batch cfg e (ib : nat * batch) :
  starts_with (e, ib.1) (train_batch cfg e ib).
Proof.
  unfold train_batch.
  apply starts_bind_r; [apply passes_tick|]. intros _.
  apply starts_bind_r; [apply passes_get|]. intros model.
  apply starts_bind_r; [apply passes_get|]. intros optimizer.
  apply starts_bind_r; [by apply passes_modify|]. intros _.
  apply starts_bind_r; [by apply passes_modify|]. intros _.
  apply starts_bind_l; [apply starts_step|]. intros _.
  apply extends_bind; [apply (emits_extends _ []), emits_quiet, quiet_tick|].
  intros _.
  apply extends_bind;
    [apply (emits_extends _ []), emits_when, emits_quiet, quiet_info|].
  intros _.
  apply extends_bind; [apply (emits_extends _ []), emits_quiet, quiet_tick|].
  intros _.
  apply (emits_extends _ []), emits_when, emits_save_model.
Qed.

Lemma starts_train_epoch cfg e b bs :
  train_loader cfg = b :: bs →
  starts_with ((e + 1)%Z, 0) (train_epoch cfg e).
Proof.
  intros Hloader. unfold train_epoch, epoch_body, enumerate.
  rewrite Hloader. cbn [length seq zip zip_with].
  apply starts_bind_r; [by apply passes_modify|]. intros _.
  apply starts_bind_r; [apply passes_tick|]. intros _.
  apply starts_bind_r; [by apply passes_modify|]. intros _.
  apply starts_bind_l.
  - apply starts_for_each; [apply (starts_train_batch cfg _ (0, b))|].
    intros ib. eapply emits_extends, emits_train_batch.
  - intros _.
    apply extends_bind;
      [apply (emits_extends _ []), emits_when, emits_end_of_epoch|].
    intros _.
    apply extends_bind; [apply (emits_extends _ []), emits_quiet, quiet_tick|].
    intros _.
    apply extends_bind; [apply (emits_extends _ []), emits_quiet, quiet_get|].
    intros s. apply (emits_extends _ []), emits_quiet. by apply quiet_modify.
Qed.

Lemma starts_guarded_loop cfg E :
  train_loader cfg ≠ [] → (E ≤ num_epoch cfg)%Z →
  starts_with (E, 0) (guarded_loop cfg (E - 1)).
Proof.
  intros Hloader HE. destruct (train_loader cfg) as [|b bs] eqn:Hb; [done|].
  apply starts_try; [|apply stepless_on_keyboard_interrupt].
  unfold train_loop, py_range. rewrite seqZ_cons by lia.
  apply starts_for_each.
  - replace E with (E - 1 + 1)%Z at 1 by lia. by eapply starts_train_epoch.
  - intros e. eapply emits_extends, emits_train_epoch.
Qed.

(** ** Resuming the loop *)

Lemma restore_resumed cfg w params opt json_data v :
  (∀ p, pretrained_model cfg = Some p → is_Some (w_disk w !! p ≫= model_pt)) →
  resume_requested cfg (w_disk w) = true →
  w_disk w !! resume_dir cfg ≫= model_pt = Some params →
  w_disk w !! resume_dir cfg ≫= optimizer_pt = Some opt →
  w_disk w !! resume_dir cfg ≫= model_state = Some json_data →
  json_get "last_epoch" json_data = Some v →
  dom params = dom (w_model w) →
  ∃ w1, restore cfg w = (w1, Ok (minus_one v))
        ∧ w_trace w1 = w_trace w ∧ w_intr w1 = w_intr w.
Proof.
  intros Hpre Hreq Hm Ho Hs Hv Hdom.
  unfold restore. unfold mbind, M_bind. rewrite load_pretrained_unfold.
  destruct (pretrained_model cfg) as [p|].
  - destruct (Hpre p eq_refl) as [pre Hp]. rewrite Hp.
    destruct (load_state_dict_ok (ddp_prefix cfg) (w_model w)
                (merged_state_dict (state_dict (ddp_prefix cfg) (w_model w)) pre))
      as (m' & Hload & _); [apply merged_state_dict_dom|].
    rewrite Hload. rewrite load_resume_unfold.
    cbn [w_disk add_log set_model w_model].
    rewrite Hreq, Hm, Ho, Hs, Hv.
    rewrite load_state_dict_bare
      by (by rewrite Hdom, (load_state_dict_dom _ _ _ _ Hload)).
    eexists. split; [reflexivity|]. done.
  - rewrite load_resume_unfold, Hreq, Hm, Ho, Hs, Hv.
    rewrite load_state_dict_bare by done.
    eexists. split; [reflexivity|]. done.
Qed.

Lemma steps_of_epochs_no_batches cfg es :
  length (train_loader cfg) = 0 → steps_of_epochs cfg es = [].
Proof.
  intros Hn. unfold steps_of_epochs. rewrite Hn.
  induction es as [|e es IH]; [done|]. exact IH.
Qed.

Lemma steps_of_epochs_head cfg E e i :
  head (steps_of_epochs cfg (py_range (E - 1) (num_epoch cfg))) = Some (e, i) →
  e = E ∧ i = 0.
Proof.
  destruct (length (train_loader cfg)) as [|n] eqn:Hn.
  { by rewrite steps_of_epochs_no_batches. }
  unfold py_range.
  destruct (decide (0 < num_epoch cfg - (E - 1))%Z) as [Hpos|Hneg].
  - rewrite seqZ_cons by done. unfold steps_of_epochs. rewrite Hn.
    cbn. intros [= <- <-]. split; [lia|done].
  - by rewrite seqZ_nil by lia.
Qed.

Lemma steps_of_epochs_single cfg E :
  steps_of_epochs cfg (py_range (E - 1) E)
  = (λ i, (E, i)) <$> seq 0 (length (train_loader cfg)).
Proof.
  unfold py_range, steps_of_epochs.
  replace (E - (E - 1))%Z with 1%Z by lia.
  rewrite seqZ_cons by lia. rewrite seqZ_nil by lia.
  cbn. rewrite app_nil_r.
  by replace (E - 1 + 1)%Z with E by lia.
Qed.

(** C1 (as amended).  Resume.  After a resume from a state record with
    [last_epoch = E], the optimiser steps of [train] are a prefix of those
    of the epochs [E], [E + 1], ..., [num_epoch], each over the whole
    training set, and all of them when no interrupt is pending and [train]
    returns.  So the first step, if there is one, is batch 0 of epoch [E]
    itself, and there is one when no interrupt is pending, the training
    set is not empty and [E <= num_epoch]; with [num_epoch = E] the epochs
    to run are exactly the one epoch [E]; and no step is taken when
    [num_epoch < E]. *)
Theorem resume_restarts_at_recorded_epoch cfg (w : world) (E : Z)
    (params : gmap string tensor) (opt : opt_state) (json_data : json_obj) :
  (∀ p, pretrained_model cfg = Some p → is_Some (w_disk w !! p ≫= model_pt)) →
  resume_requested cfg (w_disk w) = true →
  w_disk w !! resume_dir cfg ≫= model_pt = Some params →
  w_disk w !! resume_dir cfg ≫= optimizer_pt = Some opt →
  w_disk w !! resume_dir cfg ≫= model_state = Some json_data →
  json_get "last_epoch" json_data = Some (JInt E) →
  dom params = dom (fresh_model cfg) →
  let expected := steps_of_epochs cfg (py_range (E - 1) (num_epoch cfg)) in
  ∃ ys,
    steps_of (w_trace (train cfg w).1) = steps_of (w_trace w) ++ ys
    ∧ ys `prefix_of` expected
    ∧ (w_intr w = None → (train cfg w).2 = Ok tt → ys = expected)
    ∧ (∀ e i, head ys = Some (e, i) → e = E ∧ i = 0)
    ∧ (w_intr w = None → train_loader cfg ≠ [] → (E ≤ num_epoch cfg)%Z →
       head ys = Some (E, 0))
    ∧ (num_epoch cfg = E →
       expected = (λ i, (E, i)) <$> seq 0 (length (train_loader cfg)))
    ∧ ((num_epoch cfg < E)%Z → ys = []).
Proof.
  intros Hpre Hreq Hm Ho Hs Hv Hdom expected. subst expected.
  rewrite train_unfold. cbn zeta.
  set (w0 := set_opt _ _).
  destruct (restore_resumed cfg w0 params opt json_data (JInt E))
    as (w1 & Hrestore & Htrace & Hintr); try done.
  rewrite Hrestore. cbn [minus_one].
  destruct (guarded_loop_steps cfg (E - 1) (set_sched (E - 1) w1))
    as (ys & Hsteps & Hprefix & Hall).
  cbn [w_trace set_sched] in Hsteps. rewrite Htrace in Hsteps.
  exists ys. split; [done|]. split; [done|]. split; [|split; [|split; [|split]]].
  - intros Hw. apply Hall. cbn. by rewrite Hintr.
  - intros e i Hhead. apply (steps_of_epochs_head cfg E e i).
    destruct Hprefix as [k Hk]. rewrite Hk.
    by destruct ys.
  - intros Hw Hloader HE.
    destruct (starts_guarded_loop cfg E Hloader HE (set_sched (E - 1) w1))
      as (zs & Hzs); [cbn; by rewrite Hintr|].
    cbn [w_trace set_sched] in Hzs. rewrite Htrace, Hsteps in Hzs.
    apply app_inv_head in Hzs as ->. done.
  - intros <-. apply steps_of_epochs_single.
  - intros Hlt. destruct Hprefix as [k Hk].
    assert (Hnil : steps_of_epochs cfg (py_range (E - 1) (num_epoch cfg)) = []).
    { unfold py_range. by rewrite seqZ_nil by lia. }
    rewrite Hnil in Hk. by destruct ys.
Qed.

(* ================================================================== *)
(** * Further properties *)

(** ** The checkpoint store, continued *)









(** ** Round trips through the checkpoint store *)









(** ** The decoder, continued *)







(** ** Frames *)

Section Steady.
Context (R : world → world → Prop) `{!PreOrder R}.












End Steady.


#[local] Instance read_only_preorder : PreOrder read_only.
Proof.
  split.
  - intros w. unfold read_only. by repeat split.
  - intros w1 w2 w3 H12 H23. unfold read_only in *.
    destruct H23 as (-> & -> & -> & -> & -> & -> & -> & -> & -> & Hl23).
    destruct H12 as (-> & -> & -> & -> & -> & -> & -> & -> & -> & Hl12).
    repeat split. by etrans.
Qed.

#[local] Instance silent_preorder : PreOrder silent.
Proof.
  split.
  - intros w. unfold silent. by repeat split.
  - intros w1 w2 w3 H12 H23. unfold silent in *.
    destruct H23 as (-> & -> & -> & -> & -> & -> & ->).
    destruct H12 as (-> & -> & -> & -> & -> & -> & ->).
    by repeat split.
Qed.

#[local] Instance outside_kept_preorder root variant :
  PreOrder (outside_kept root variant).
Proof.
  split.
  - by intros w p Hp.
  - intros w1 w2 w3 H12 H23 p Hp. by rewrite H23, H12.
Qed.






(** ** The evaluator, continued *)


Lemma evaluate_unfold cfg p w :
  evaluate cfg p w
  = match w_disk w !! p ≫= model_pt with
    | None =>
        (set_model (fresh_model cfg) w,
         Raise (AssertionError "model.pt does not exist"))
    | Some params =>
        match load_state_dict "" (fresh_model cfg) params with
        | Raise e => (set_model (fresh_model cfg) w, Raise e)
        | Ok model =>
            match for_fold (test_loader cfg) (evaluate_batch cfg) []
                    (set_model model (set_model (fresh_model cfg) w)) with
            | (w', Ok c) => (w', mean c)
            | (w', Raise e) => (w', Raise e)
            end
        end
    end.
Proof.
  unfold evaluate. munfold. cbn [fst snd w_disk set_model w_model].
  destruct (option_bind _ _ _ _) as [params|]; [|done].
  destruct (load_state_dict _ _ _) as [m|e]; [|done].
  by destruct (for_fold _ _ _ _) as [w' [c|e]].
Qed.


Lemma evaluate_fold_run cfg dec bsd model : ∀ bs hss acc w,
  w_decoder (after_select cfg (vocabulary cfg) w) = dec →
  w_bsd (after_select cfg (vocabulary cfg) w) = bsd →
  w_model w = model →
  Forall2 (λ b hs,
    decode_with dec bsd (forward_softmax model b).1 (forward_softmax model b).2
      (vocabulary cfg) = Ok hs) bs hss →
  ∃ w', for_fold bs (evaluate_batch cfg) acc w
        = (w', Ok (acc ++ concat (zip_with (λ b hs,
                      batch_errors (metrics_type cfg) hs
                        (labels_to_string b (vocabulary cfg))) bs hss))).
Proof.
  induction bs as [|b bs IH]; intros hss acc w Hd Hb Hm Hall.
  - apply Forall2_nil_inv_l in Hall as ->. exists w. cbn.
    by rewrite app_nil_r.
  - apply Forall2_cons_inv_l in Hall as (hs & hss' & Hdec & Hall & ->).
    cbn [zip_with for_fold].
    unfold mbind at 1. unfold M_bind at 1.
    rewrite evaluate_batch_unfold. cbn zeta. rewrite Hd, Hb, Hm, Hdec.
    pose proof (after_select_settled cfg (vocabulary cfg) w) as Hs.
    pose proof (after_select_model cfg (vocabulary cfg) w) as Hm'.
    destruct (IH hss' (acc ++ batch_errors (metrics_type cfg) hs
                 (labels_to_string b (vocabulary cfg)))
               (after_select cfg (vocabulary cfg) w))
      as (w'' & Hrun).
    { by rewrite select_decoder_settled by done. }
    { by rewrite select_decoder_settled by done. }
    { congruence. }
    { done. }
    exists w''. rewrite Hrun. cbn. by rewrite <- !app_assoc.
Qed.

Lemma cer_errors_not_wer cfg (bs : list batch) (hss : list (list string)) :
  metrics_type cfg ≠ "wer" →
  concat (zip_with (λ b hs, batch_errors (metrics_type cfg) hs
                              (labels_to_string b (vocabulary cfg))) bs hss)
  = concat (zip_with (λ b hs, (λ ol, cer ol.1 ol.2)
                                <$> zip hs (labels_to_string b (vocabulary cfg)))
              bs hss).
Proof.
  intros Hmt. f_equal. apply zip_with_ext; [|done..].
  intros b hs. by apply batch_errors_not_wer.
Qed.

Lemma cer_errors_length cfg (bs : list batch) : ∀ hss : list (list string),
  length (concat (zip_with (λ b hs, (λ ol, cer ol.1 ol.2)
                     <$> zip hs (labels_to_string b (vocabulary cfg))) bs hss))
  = sum_list (zip_with (λ b hs,
      length hs `min` length (labels_to_string b (vocabulary cfg))) bs hss).
Proof.
  induction bs as [|b bs IH]; intros [|hs hss]; try done.
  cbn. by rewrite length_app, length_fmap, length_zip, IH.
Qed.

(** C10.  The metric.  For every [metrics_type] other than ['wer'] the
    error of each sample is its character error rate, in [__test] and in
    [evaluate] alike: where the batches decode, [__test] returns the mean
    of the character error rates of all samples, beside the mean loss, and
    [evaluate] returns the mean of the character error rates of all
    samples, one rate per sample.  In every case both return, or raise,
    exactly what they do under [metrics_type = 'cer']: the value is never
    checked and no error is raised for it. *)
Theorem metrics_type_defaults_to_cer cfg (w : world) (p : path) :
  metrics_type cfg ≠ "wer" →
  let cers (hss : list (list string)) :=
    concat (zip_with (λ b hs, (λ ol, cer ol.1 ol.2)
                                <$> zip hs (labels_to_string b (vocabulary cfg)))
              (test_loader cfg) hss) in
  let samples (hss : list (list string)) :=
    sum_list (zip_with (λ b hs,
      length hs `min` length (labels_to_string b (vocabulary cfg)))
      (test_loader cfg) hss) in
  (∀ out_string label,
     sample_error (metrics_type cfg) out_string label = cer out_string label)
  ∧ (__test cfg w).2 = (__test (with_metrics_type cfg "cer") w).2
  ∧ (evaluate cfg p w).2 = (evaluate (with_metrics_type cfg "cer") p w).2
  ∧ (∀ hss,
       let w1 := after_select cfg (vocabulary cfg) w in
       test_loader cfg ≠ [] →
       Forall2 (λ b hs,
         decode_with (w_decoder w1) (w_bsd w1)
           (forward_softmax (w_model w) b).1 (forward_softmax (w_model w) b).2
           (vocabulary cfg) = Ok hs
         ∧ zip hs (labels_to_string b (vocabulary cfg)) ≠ [])
         (test_loader cfg) hss →
       (__test cfg w).2
       = Ok (arithmetic_mean (cers hss),
             arithmetic_mean (ctc_loss_mean (w_model w) <$> test_loader cfg))
       ∧ length (cers hss) = samples hss)
  ∧ (∀ params hss,
       let w1 := after_select cfg (vocabulary cfg) (set_model params w) in
       w_disk w !! p ≫= model_pt = Some params →
       dom params = dom (fresh_model cfg) →
       Forall2 (λ b hs,
         decode_with (w_decoder w1) (w_bsd w1)
           (forward_softmax params b).1 (forward_softmax params b).2
           (vocabulary cfg) = Ok hs) (test_loader cfg) hss →
       cers hss ≠ [] →
       (evaluate cfg p w).2 = Ok (arithmetic_mean (cers hss))
       ∧ length (cers hss) = samples hss).
Proof.
  intros Hmt cers samples. split; [|split; [|split; [|split]]].
  - intros o l. by apply sample_error_not_wer.
  - unfold __test. unfold mbind at 1 4. unfold M_bind at 1 4.
    cbn [test_loader with_metrics_type].
    destruct (for_fold_erase (test_batch cfg)
                (test_batch (with_metrics_type cfg "cer"))
                (enumerate (test_loader cfg))
                (λ x acc w1 w2, test_batch_metric cfg x acc w1 w2 Hmt)
                ([], []) w w eq_refl) as [Hr _].
    destruct (for_fold _ (test_batch cfg) _ _) as [w1 r1].
    destruct (for_fold _ (test_batch (with_metrics_type cfg "cer")) _ _)
      as [w2 r2].
    cbn in Hr. subst r2. destruct r1 as [acc|e]; [|done].
    munfold. by repeat case_match.
  - unfold evaluate. munfold. cbn [fresh_model test_loader with_metrics_type fst snd].
    destruct (option_bind _ _ _ _) as [params|]; [|done].
    cbn [w_model set_model]. destruct (load_state_dict _ _ _) as [m|e]; [|done].
    destruct (for_fold_erase (evaluate_batch cfg)
                (evaluate_batch (with_metrics_type cfg "cer"))
                (test_loader cfg)
                (λ x acc w1 w2, evaluate_batch_metric cfg x acc w1 w2 Hmt)
                [] (set_model m (set_model (fresh_model cfg) w))
                (set_model m (set_model (fresh_model cfg) w)) eq_refl)
      as [Hr _].
    destruct (for_fold _ (evaluate_batch cfg) _ _) as [w1 r1].
    destruct (for_fold _ (evaluate_batch (with_metrics_type cfg "cer")) _ _)
      as [w2 r2].
    cbn in Hr. subst r2. by destruct r1.
  - intros hss w1 Hne Hall. split; [|apply cer_errors_length].
    assert (Hall' : Forall2 (λ b hs,
      decode_with (w_decoder w1) (w_bsd w1)
        (forward_softmax (w_model w) b).1 (forward_softmax (w_model w) b).2
        (vocabulary cfg) = Ok hs
      ∧ batch_errors (metrics_type cfg) hs (labels_to_string b (vocabulary cfg))
        ≠ []) (test_loader cfg) hss).
    { eapply Forall2_impl; [exact Hall|]. intros b hs [Hdec Hzip].
      split; [done|]. rewrite batch_errors_not_wer by done.
      by destruct (zip hs _). }
    destruct (test_fold_run cfg (w_decoder w1) (w_bsd w1) (w_model w)
                (test_loader cfg) hss 0 ([], []) w eq_refl eq_refl eq_refl Hall')
      as (w' & Hrun).
    unfold __test, enumerate. unfold mbind at 1. unfold M_bind at 1.
    rewrite Hrun. cbn [fst snd app].
    rewrite (cer_errors_not_wer cfg _ _ Hmt). fold (cers hss).
    assert (Herr : cers hss ≠ []).
    { subst cers. cbn beta. destruct Hall as [|b hs bs hss' [_ Hb] _]; [done|].
      cbn. intros Heq. apply app_eq_nil in Heq as [Heq _].
      by destruct (zip hs _). }
    assert (Hloss : ctc_loss_mean (w_model w) <$> test_loader cfg ≠ []).
    { by destruct (test_loader cfg). }
    rewrite (mean_nonempty _ Herr), (mean_nonempty _ Hloss). by munfold.
  - intros params hss w1 Hp Hdom Hall Herr. split; [|apply cer_errors_length].
    rewrite evaluate_unfold, Hp, load_state_dict_bare by done.
    destruct (evaluate_fold_run cfg (w_decoder w1) (w_bsd w1) params
                (test_loader cfg) hss []
                (set_model params (set_model (fresh_model cfg) w)))
      as (w' & Hrun); try done.
    rewrite Hrun. cbn [app snd].
    rewrite (cer_errors_not_wer cfg _ _ Hmt). fold (cers hss).
    by rewrite mean_nonempty.
Qed.



(** ** What [train] leaves alone *)




Section OtherRanks.
Variable cfg : config.
Hypothesis Hrank : local_rank cfg ≠ 0.





End OtherRanks.







(** ** Whole runs *)






(** ** The checkpoint at the end of a run *)










(** ** The vocabulary file *)











(** ** The exported model *)




End Properties.

(* ================================================================== *)
(** * The properties on the small instance *)

#[local] Existing Instance toy.

Lemma save_model_retention_witness :
  size (numbered_dirs "models" "deepspeech2"
          (save_calls "models" "deepspeech2" toy_saves ∅)) ≤ 4
  ∧ size (variant_dirs "models" "deepspeech2"
            (save_calls "models" "deepspeech2" toy_saves ∅)) ≤ 4 + 2.
Proof.
  apply (save_model_retention "models" "deepspeech2" toy_saves ∅).
  - reflexivity.
  - vm_compute. repeat split; intros Heq; discriminate Heq.
Defined.

Lemma decoder_fallback_once_witness :
  (decode_all toy_cfg toy_decode_calls toy_beam_world).2
  = Ok [["a"]; ["c"; "de"]; [""]]
  ∧ w_decoder (decode_all toy_cfg toy_decode_calls toy_beam_world).1
    = "ctc_greedy"
  ∧ count_fallback_warnings
      (w_log (decode_all toy_cfg toy_decode_calls toy_beam_world).1) = 1.
Proof.
  apply (decoder_fallback_once toy_cfg toy_decode_calls toy_beam_world).
  - reflexivity.
  - reflexivity.
  - right. reflexivity.
  - discriminate.
  - repeat constructor.
Defined.

Lemma test_returns_means_witness :
  (__test toy_cfg toy_world).2 = Ok ((1 # 2)%Q, 2%Q).
Proof.
  apply (test_returns_means toy_cfg toy_world [["a"; "b"]]).
  - discriminate.
  - repeat constructor. discriminate.
Defined.

Lemma metrics_type_defaults_to_cer_witness :
  sample_error "bogus" "b" "c" = toy_cer "b" "c"
  ∧ (__test toy_cfg_bogus_metric toy_trained).2
    = (__test (with_metrics_type toy_cfg_bogus_metric "cer") toy_trained).2
  ∧ (evaluate toy_cfg_bogus_metric (last_model_dir toy_cfg) toy_trained).2
    = (evaluate (with_metrics_type toy_cfg_bogus_metric "cer")
         (last_model_dir toy_cfg) toy_trained).2
  ∧ (__test toy_cfg_bogus_metric toy_trained).2 = Ok ((1 # 2)%Q, 2%Q)
  ∧ (evaluate toy_cfg_bogus_metric (last_model_dir toy_cfg) toy_trained).2
    = Ok (1 # 2)%Q.
Proof.
  destruct (metrics_type_defaults_to_cer toy_cfg_bogus_metric toy_trained
              (last_model_dir toy_cfg))
    as (Hsample & Htest & Hevaluate & Htest_cer & Hevaluate_cer).
  - discriminate.
  - split; [apply Hsample|]. split; [exact Htest|]. split; [exact Hevaluate|].
    split.
    + apply (Htest_cer [["a"; "b"]]).
      * discriminate.
      * repeat constructor. discriminate.
    + apply (Hevaluate_cer {[ "fc.weight" := 0%Z ]} [["a"; "b"]]).
      * by vm_compute.
      * done.
      * repeat constructor.
      * discriminate.
Defined.

Lemma pretrained_then_resume_witness :
  ∃ m',
    load_pretrained toy_cfg_pretrained toy_pretrained_world
    = (add_log (LogPretrainedLoaded (External "pretrained"))
         (set_model m' toy_pretrained_world), Ok tt)
    ∧ state_dict (ddp_prefix toy_cfg_pretrained) m' !! "fc.weight" = Some 7%Z
    ∧ state_dict (ddp_prefix toy_cfg_pretrained) m' !! "rnn.bias" = None.
Proof.
  destruct (pretrained_then_resume toy_cfg_pretrained toy_pretrained_world
              (External "pretrained") toy_pretrained_dict)
    as (m' & Hrun & Hcopy & _).
  - reflexivity.
  - reflexivity.
  - exists m'. split; [exact Hrun|]. split.
    + rewrite Hcopy. reflexivity.
    + rewrite Hcopy. reflexivity.
Defined.

Lemma resume_exactly_when_requested_witness :
  resume_requested toy_cfg (w_disk toy_trained) = true
  ∧ w_opt (load_resume toy_cfg toy_trained).1 = 3
  ∧ (load_resume toy_cfg toy_trained).2 = Ok (JInt 1).
Proof.
  destruct (resume_exactly_when_requested toy_cfg toy_trained)
    as (Hiff & _ & _ & Hrestored).
  assert (Hreq : resume_requested toy_cfg (w_disk toy_trained) = true).
  { apply Hiff. right. split; vm_compute; eauto. }
  split; [exact Hreq|].
  destruct (Hrestored {[ "fc.weight" := 0%Z ]} 3
              [("last_epoch", JInt 2); ("test_cer", JFloat (fmt_f (1 # 2)));
               ("test_loss", JFloat (fmt_f 2))] (JInt 2))
    as (Hrun & _ & Hopt).
  - exact Hreq.
  - reflexivity.
  - reflexivity.
  - reflexivity.
  - reflexivity.
  - reflexivity.
  - split; [exact Hopt|]. rewrite Hrun. reflexivity.
Defined.

Lemma resume_best_error_rate_witness :
  w_best (load_resume toy_cfg toy_trained).1 = Qabs (fmt_f (1 # 2)).
Proof.
  destruct (resume_best_error_rate toy_cfg toy_trained) as (_ & Hbest & _).
  destruct (Hbest {[ "fc.weight" := 0%Z ]} 3
              [("last_epoch", JInt 2); ("test_cer", JFloat (fmt_f (1 # 2)));
               ("test_loss", JFloat (fmt_f 2))] (JInt 2))
    as (_ & Hb).
  - reflexivity.
  - reflexivity.
  - reflexivity.
  - reflexivity.
  - reflexivity.
  - reflexivity.
  - exact Hb.
Defined.

Lemma best_model_written_iff_not_worse_witness :
  w_trace (save_if_best toy_cfg 0 ((1 # 2)%Q, 2%Q) toy_world).1
  = [EvSaveModel 0 "cer" (1 # 2) 2 true]
  ∧ non_increasing (best_model_metrics (w_trace (train toy_cfg toy_world).1)).
Proof.
  destruct (best_model_written_iff_not_worse toy_cfg 0 ((1 # 2)%Q, 2%Q)
              toy_world) as (Hyes & _ & Hrun).
  split.
  - apply Hyes. discriminate.
  - apply Hrun. reflexivity.
Defined.

Lemma interrupt_saves_once_witness :
  ∃ epoch,
    w_epoch (train_loop toy_cfg (-1) toy_interrupted).1 = Some epoch
    ∧ (guarded_loop toy_cfg (-1) toy_interrupted).2 = Ok tt
    ∧ w_trace (guarded_loop toy_cfg (-1) toy_interrupted).1
      = [EvSaveModel epoch "cer" 1 1000 false].
Proof.
  destruct (interrupt_saves_once toy_cfg (-1) toy_interrupted
              (train_loop toy_cfg (-1) toy_interrupted).1)
    as (epoch & Hepoch & Hsave & _).
  - reflexivity.
  - exists epoch. split; [exact Hepoch|].
    destruct (Hsave eq_refl) as (Hok & Htrace & _).
    split; [exact Hok | exact Htrace].
Defined.

Lemma resume_restarts_at_recorded_epoch_witness :
  ∃ ys,
    steps_of (w_trace (train toy_cfg toy_trained).1)
    = steps_of (w_trace toy_trained) ++ ys
    ∧ ys = [(2%Z, 0)].
Proof.
  destruct (resume_restarts_at_recorded_epoch toy_cfg toy_trained 2
              {[ "fc.weight" := 0%Z ]} 3
              [("last_epoch", JInt 2); ("test_cer", JFloat (fmt_f (1 # 2)));
               ("test_loss", JFloat (fmt_f 2))])
    as (ys & Hsteps & _ & Hall & _).
  - intros p. discriminate.
  - reflexivity.
  - reflexivity.
  - reflexivity.
  - reflexivity.
  - reflexivity.
  - reflexivity.
  - exists ys. split; [exact Hsteps|]. apply Hall; reflexivity.
Defined.

(** Counterexample to C1 as stated.  A first run of [train] with
    [num_epoch = 2] completes epoch 2 and leaves a [last_model] whose record
    has [last_epoch = 2].  A second run with the same [num_epoch = 2]
    resumes from it and takes one more optimiser step, in epoch 2 again:
    not zero additional epochs, and not a start at epoch 3. *)
Lemma resume_reruns_completed_epoch :
  (w_disk toy_trained !! last_model_dir toy_cfg ≫= model_state)
    ≫= json_get "last_epoch" = Some (JInt 2)
  ∧ num_epoch toy_cfg = 2%Z
  ∧ steps_of (w_trace toy_trained) = [(0%Z, 0); (1%Z, 0); (2%Z, 0)]
  ∧ steps_of (w_trace (train toy_cfg toy_trained).1)
    = steps_of (w_trace toy_trained) ++ [(2%Z, 0)]
  ∧ steps_of (w_trace (train toy_cfg toy_trained).1)
    ≠ steps_of (w_trace toy_trained).
Proof.
  repeat split; try reflexivity. vm_compute. discriminate.
Qed.

(** ** Further properties on the small instance *)


















(** The vocabulary written for a small counter under the default
    threshold of 2. *)
Lemma dataset_vocab_toy_counter :
  dataset_vocab 2 toy_counter
  = [ ("<blank>", (-1)%Z); ("<unk>", (-1)%Z); ("<space>", 5%Z); ("a", 3%Z);
      ("c", 3%Z); ("d", 2%Z) ].
Proof. reflexivity. Qed.
